(** * The publish pipeline of the CMS server (cms/server.js)

    A shallow embedding of the Express application of [cms/server.js]:
    the two rate limiters, the body parsers and the error-handling
    middleware, the session gate [requireAuth], the login handler, the
    listing of posts and the create-post handler with its slug
    derivation, its [INSERT] into the [posts] table and its write of the
    Hugo content file.

    Conventions of the model.
    - A JavaScript string is a Rocq [string], one character per UTF-16
      code unit, for code units below 256.
    - A field of a request body is [None] when it is missing and
      [Some s] when it is the string [s], as an HTML form or the
      documented JSON body sends it. A request whose body the parsers do
      not accept is the call [Refused].
    - The session store keeps what a login saves until a logout removes
      it, and a session is valid before its expiry. The store of
      express-session also moves the expiry of a session forward when
      the session is used and forgets a session found expired; this is
      not modelled: the store here changes at a login and at a logout
      only.
    - What the platform decides (the clock, a failing database or file
      system call, the identifier of a new session) is an input of each
      request, the record [env].
    - Every handler returns the response, the next state of the server and
      the list of the calls it made to the database, to bcrypt and to the
      file system. *)

From Stdlib Require Import ZArith Ascii String List Bool Lia.
From Stdlib Require Import Sorting.Sorted Permutation.
From stdpp Require Import gmap strings list sorting.

Local Open Scope Z_scope.

(** ** JavaScript strings *)

Module Js.

(** Code unit of a character. *)
Definition code (c : ascii) : N := N_of_ascii c.

(** [String.prototype.toLowerCase] on one code unit below 256: the letters
    A-Z, and the Latin-1 capitals U+00C0..U+00DE except the multiplication
    sign U+00D7, move up by 32; everything else is unchanged. *)
Definition lowerUnit (c : ascii) : ascii :=
  let n := code c in
  if ((65 <=? n) && (n <=? 90))%N then ascii_of_N (n + 32)
  else if ((192 <=? n) && (n <=? 222) && negb (n =? 215))%N
       then ascii_of_N (n + 32)
  else c.

Fixpoint toLowerCase (s : string) : string :=
  match s with
  | EmptyString => EmptyString
  | String c r => String (lowerUnit c) (toLowerCase r)
  end.

(** The character class [[a-z0-9]]. *)
Definition isAlnum (c : ascii) : bool :=
  let n := code c in
  (((97 <=? n) && (n <=? 122)) || ((48 <=? n) && (n <=? 57)))%N.

Definition hyphen : ascii := "-"%char.

(** [s.replace(/[^a-z0-9]+/g, '-')]: scanning from the left, each match of
    the greedy class repetition is a maximal run of characters outside the
    class, and is replaced by one hyphen. [inRun] tells that the character
    before the current one belongs to the match being consumed. *)
Fixpoint replaceRuns (inRun : bool) (s : string) : string :=
  match s with
  | EmptyString => EmptyString
  | String c r =>
      if isAlnum c then String c (replaceRuns false r)
      else if inRun then replaceRuns true r
      else String hyphen (replaceRuns true r)
  end.

Definition replaceNonAlnum (s : string) : string := replaceRuns false s.

(** Truthiness of a body field: [undefined] and the empty string are
    falsy, every other string is truthy. *)
Definition truthy (f : option string) : bool :=
  match f with
  | None => false
  | Some EmptyString => false
  | Some (String _ _) => true
  end.

End Js.

(** ** Slug derivation (server.js line 148) *)

(** [title.toLowerCase().replace(/[^a-z0-9]+/g, '-')] *)
Definition slug (title : string) : string :=
  Js.replaceNonAlnum (Js.toLowerCase title).

(** The derivation as the specification words it: cut the lower-cased
    title into its maximal runs of characters of the same kind (inside or
    outside [[a-z0-9]]) and put one hyphen for every run outside. *)
Module SlugSpec.

(** One run: its kind ([true] inside the class) and its characters. *)
Definition run : Type := bool * string.

Fixpoint runs (s : string) : list run :=
  match s with
  | EmptyString => []
  | String c r =>
      let k := Js.isAlnum c in
      match runs r with
      | (k', w) :: rest =>
          if Bool.eqb k k' then (k, String c w) :: rest
          else (k, String c EmptyString) :: (k', w) :: rest
      | [] => [(k, String c EmptyString)]
      end
  end.

Definition render (r : run) : string :=
  if fst r then snd r else String Js.hyphen EmptyString.

Fixpoint concat (l : list string) : string :=
  match l with
  | [] => EmptyString
  | w :: rest => w +:+ concat rest
  end.

Definition derive (title : string) : string :=
  concat (map render (runs (Js.toLowerCase title))).

End SlugSpec.

(** Predicates on slugs. *)
Fixpoint allChars (p : ascii -> bool) (s : string) : bool :=
  match s with
  | EmptyString => true
  | String c r => p c && allChars p r
  end.

Definition isSlugChar (c : ascii) : bool :=
  Js.isAlnum c || Ascii.eqb c Js.hyphen.

Fixpoint noDoubleHyphen (s : string) : bool :=
  match s with
  | EmptyString => true
  | String c r =>
      match r with
      | String d _ =>
          negb (Ascii.eqb c Js.hyphen && Ascii.eqb d Js.hyphen)
          && noDoubleHyphen r
      | EmptyString => true
      end
  end.

Definition startsWithHyphen (s : string) : bool :=
  match s with
  | String c _ => Ascii.eqb c Js.hyphen
  | EmptyString => false
  end.

Fixpoint endsWithHyphen (s : string) : bool :=
  match s with
  | EmptyString => false
  | String c EmptyString => Ascii.eqb c Js.hyphen
  | String _ r => endsWithHyphen r
  end.

(** The first, the last character of [s] is outside [[a-z0-9]]. *)
Definition firstOutside (s : string) : bool :=
  match s with
  | String c _ => negb (Js.isAlnum c)
  | EmptyString => false
  end.

Fixpoint lastOutside (s : string) : bool :=
  match s with
  | EmptyString => false
  | String c EmptyString => negb (Js.isAlnum c)
  | String _ r => lastOutside r
  end.

(** ** Tables of the database (server.js lines 48-60) *)

(** A row of [users]: [id INTEGER PRIMARY KEY, username TEXT UNIQUE,
    password TEXT] (the bcrypt hash). *)
Record user := { u_id : Z; u_username : string; u_password : string }.

(** A row of [posts]: [id INTEGER PRIMARY KEY, title TEXT, content TEXT,
    date TEXT, slug TEXT UNIQUE]. *)
Record post := {
  p_id : Z; p_title : string; p_content : string;
  p_date : string; p_slug : string }.

(** A row of [SELECT id, title, date, slug FROM posts]. *)
Record summary := {
  s_id : Z; s_title : string; s_date : string; s_slug : string }.

Definition summarize (p : post) : summary :=
  {| s_id := p_id p; s_title := p_title p;
     s_date := p_date p; s_slug := p_slug p |}.

(** Comparison of two TEXT values under SQLite's default BINARY collation:
    byte by byte. *)
Definition textLe (a b : string) : Prop := String.leb a b = true.

#[global] Instance textLe_dec a b : Decision (textLe a b).
Proof. unfold textLe. apply _. Defined.

(** The rows of a listing, most recent date first. *)
Definition newestFirst (a b : summary) : Prop := textLe (s_date b) (s_date a).

Module Db.

Inductive error :=
| SQLITE_CONSTRAINT   (* UNIQUE constraint failed: posts.slug *)
| SQLITE_FAULT.       (* any other failure of the call *)

(** [SELECT * FROM users WHERE username = ?]: the row of that name, if
    any; a missing parameter matches no row. *)
Definition getUser (username : option string) (us : list user)
  : option user :=
  match username with
  | None => None
  | Some n => find (fun u => String.eqb (u_username u) n) us
  end.

(** The rowid SQLite gives to a new row of a table whose primary key is
    an INTEGER PRIMARY KEY: one more than the largest in use, 1 in an
    empty table. *)
Definition nextId (ps : list post) : Z :=
  1 + fold_right Z.max 0 (map p_id ps).

Definition slugTaken (sl : string) (ps : list post) : bool :=
  existsb (fun p => String.eqb (p_slug p) sl) ps.

(** [INSERT INTO posts (title, content, date, slug) VALUES (?, ?, ?, ?)].
    The call fails when the platform makes it fail and when the slug is
    already in the table; otherwise the row is appended and its id is
    [this.lastID]. *)
Definition insert (fault : bool) (title content date sl : string)
    (ps : list post) : error + (Z * list post) :=
  if fault then inl SQLITE_FAULT
  else if slugTaken sl ps then inl SQLITE_CONSTRAINT
  else
    let id := nextId ps in
    inr (id, ps ++ [ {| p_id := id; p_title := title; p_content := content;
                        p_date := date; p_slug := sl |} ]).

(** [ORDER BY date DESC]: the rows sorted on their date, larger first. *)
Definition dateDesc (a b : post) : Prop := textLe (p_date b) (p_date a).

#[global] Instance dateDesc_dec a b : Decision (dateDesc a b).
Proof. unfold dateDesc. apply _. Defined.

Definition orderByDateDesc (ps : list post) : list post :=
  merge_sort dateDesc ps.

(** [SELECT id, title, date, slug FROM posts ORDER BY date DESC] *)
Definition selectPosts (ps : list post) : list summary :=
  map summarize (orderByDateDesc ps).

End Db.

(** ** Sessions (express-session, server.js lines 73-82) *)

(** What the store keeps for a session identifier: [req.session.userId]
    and the expiry of its cookie. *)
Record session := { userId : Z; expires : Z }.

Module Session.

(** [maxAge: 24 * 60 * 60 * 1000] *)
Definition maxAge : Z := 24 * 60 * 60 * 1000.

(** The session of a request: the one stored under the identifier of its
    cookie, unless it has expired. *)
Definition load (store : gmap string session) (cookie : option string)
    (now : Z) : option (string * session) :=
  match cookie with
  | None => None
  | Some sid =>
      match store !! sid with
      | Some se => if now <? expires se then Some (sid, se) else None
      | None => None
      end
  end.

(** [req.session.userId] is truthy: there is a session and its user id is
    not 0. *)
Definition authenticated (store : gmap string session)
    (cookie : option string) (now : Z) : bool :=
  match load store cookie now with
  | Some (_, se) => negb (userId se =? 0)
  | None => false
  end.

End Session.

(** ** Rate limiters (express-rate-limit, server.js lines 33-44) *)

(** The counter of one client: the requests counted in its current window
    and the time at which that window ends. *)
Record window := { hits : nat; resetTime : Z }.

Module Limiter.

(** Counting one request at time [now]: a window that has ended, or a
    client never seen, starts a new window of [windowMs] milliseconds. *)
Definition count (windowMs now : Z) (w : option window) : window :=
  match w with
  | Some w =>
      if now <? resetTime w
      then {| hits := S (hits w); resetTime := resetTime w |}
      else {| hits := 1; resetTime := now + windowMs |}
  | None => {| hits := 1; resetTime := now + windowMs |}
  end.

(** The middleware [rateLimit({windowMs, max})] on a request of client
    [key]: the request is counted, and let through when the count does not
    exceed [max]. *)
Definition consume (windowMs : Z) (max : nat) (now : Z) (key : string)
    (table : gmap string window) : bool * gmap string window :=
  let w := count windowMs now (table !! key) in
  (Nat.leb (hits w) max, <[key := w]> table).

(** [limiter]: 100 requests per 15 minutes. *)
Definition generalWindowMs : Z := 15 * 60 * 1000.
Definition generalMax : nat := 100.

(** [loginLimiter]: 5 requests per hour. *)
Definition loginWindowMs : Z := 60 * 60 * 1000.
Definition loginMax : nat := 5.

End Limiter.

(** ** The content file (server.js lines 160-170) *)

Module Hugo.

Definition nl : string := String (ascii_of_N 10) EmptyString.
Definition quote : string := String (ascii_of_N 34) EmptyString.

(** The template literal [hugoContent]. *)
Definition hugoContent (title date content : string) : string :=
  "---" +:+ nl +:+
  "title: " +:+ quote +:+ title +:+ quote +:+ nl +:+
  "date: " +:+ date +:+ nl +:+
  "draft: false" +:+ nl +:+
  "---" +:+ nl +:+
  nl +:+
  content.

(** [path.join(process.cwd(), 'content/posts', `${slug}.md`)], relative to
    the working directory of the server. *)
Definition stem (sl : string) : string := sl +:+ ".md".
Definition dir : string := "content/posts".
Definition filePath (sl : string) : string := dir +:+ "/" +:+ stem sl.

End Hugo.

(** ** The server: state, platform, requests and responses *)

Record state := {
  users : list user;
  posts : list post;
  files : gmap string string;          (* path, content *)
  sessions : gmap string session;      (* session identifier, session *)
  generalHits : gmap string window;    (* counters of [limiter] *)
  loginHits : gmap string window;      (* counters of [loginLimiter] *)
  secureCookie : bool }.               (* [cookie.secure] (line 78) *)

Definition setPosts (ps : list post) (s : state) : state :=
  {| users := users s; posts := ps; files := files s;
     sessions := sessions s; generalHits := generalHits s;
     loginHits := loginHits s; secureCookie := secureCookie s |}.

Definition setFiles (fs : gmap string string) (s : state) : state :=
  {| users := users s; posts := posts s; files := fs;
     sessions := sessions s; generalHits := generalHits s;
     loginHits := loginHits s; secureCookie := secureCookie s |}.

Definition setSessions (ss : gmap string session) (s : state) : state :=
  {| users := users s; posts := posts s; files := files s;
     sessions := ss; generalHits := generalHits s;
     loginHits := loginHits s; secureCookie := secureCookie s |}.

Definition setGeneralHits (t : gmap string window) (s : state) : state :=
  {| users := users s; posts := posts s; files := files s;
     sessions := sessions s; generalHits := t;
     loginHits := loginHits s; secureCookie := secureCookie s |}.

Definition setLoginHits (t : gmap string window) (s : state) : state :=
  {| users := users s; posts := posts s; files := files s;
     sessions := sessions s; generalHits := generalHits s;
     loginHits := t; secureCookie := secureCookie s |}.

(** How the two file system calls of a create-post request end:
    both succeed, [mkdirSync] throws, or [writeFileSync] throws, leaving
    the path as it was ([None]) or holding [Some] partial data. *)
Inductive fs_outcome :=
| FsOk
| MkdirThrows
| WriteThrows (leftover : option string).

(** What the platform decides for one request. *)
Record env := {
  now : Z;                 (* [Date.now()], milliseconds *)
  isoNow : string;         (* [new Date().toISOString()] *)
  dbFault : bool;          (* the database call of the request fails *)
  fsResult : fs_outcome;
  newSid : string }.       (* identifier generated for a new session *)

(** The six routes (lines 94-178). *)
Inductive route :=
| RLoginPage       (* GET /cms/login *)
| RLogin           (* POST /cms/login *)
| RLogout          (* GET /cms/logout *)
| RDashboard       (* GET /cms/dashboard *)
| RPosts           (* GET /cms/posts *)
| RNewPost.        (* POST /cms/posts *)

(** A request as it leaves the body parsers [express.json()] and
    [express.urlencoded()] (lines 71-72): for one of the routes, with the
    fields of the body the parsers have read; or [Refused], a request for
    route [to] whose body the parsers do not accept (longer than their
    limit of 100 kb, or not well-formed) and for which they raise an
    error. *)
Inductive call :=
| GetLogin
| PostLogin (username password : option string)
| GetLogout
| GetDashboard
| GetPosts
| PostPosts (title content : option string)
| Refused (to : route).

Record request := {
  ip : string;
  cookie : option string;     (* session identifier of the signed cookie *)
  target : call }.

(** Mounted under [/cms/login]. *)
Definition underLogin (c : call) : bool :=
  match c with
  | GetLogin | PostLogin _ _ => true
  | Refused RLoginPage | Refused RLogin => true
  | _ => false
  end.

Inductive payload :=
| Redirect (location : string)
| File (name : string)
| Text (message : string)
| JsonError (message : string)
| JsonPosts (rows : list summary)
| JsonCreated (id : Z) (sl : string).

Record response := {
  status : Z;
  body : payload;
  setCookie : option string }.

(** The calls a handler makes. *)
Inductive event :=
| DbGetUser (username : option string)
| BcryptCompare (hash : string)
| DbAllPosts
| DbRunInsert (title content date sl : string)
              (result : Db.error + Z)
| FsMkdir (path : string)
| FsWriteFile (path data : string)
| SessionSave (sid : string)
| SessionDestroy (sid : string).

Record outcome := { resp : response; next : state; log : list event }.

Definition reply (st : Z) (b : payload) (s : state) (l : list event)
  : outcome :=
  {| resp := {| status := st; body := b; setCookie := None |};
     next := s; log := l |}.

(** [res.redirect(url)]: status 302, also after [res.status(500)]. *)
Definition redirect (url : string) (s : state) (l : list event) : outcome :=
  reply 302 (Redirect url) s l.

(** The answer of a rate limiter that turns a request away. *)
Definition rateLimited : response :=
  {| status := 429;
     body := Text "Too many requests, please try again later.";
     setCookie := None |}.

Definition tooMany (s : state) : outcome :=
  {| resp := rateLimited; next := s; log := [] |}.

(** The answer of [requireAuth] to a request without a session. *)
Definition toLogin : response :=
  {| status := 302; body := Redirect "/cms/login"; setCookie := None |}.

(** Two states hold the same users, posts, files and sessions. *)
Definition sameStores (a b : state) : Prop :=
  users a = users b /\ posts a = posts b /\ files a = files b
  /\ sessions a = sessions b.


Definition fieldText (f : option string) : string :=
  match f with
  | Some t => t
  | None => EmptyString
  end.

(** ** The handlers *)

Section Server.

(** [bcrypt.compare(password, hash)] on two strings. *)
Variable bcrypt_compare : string -> string -> bool.

(** [requireAuth] (lines 86-91), in front of the handler [route]. *)
Definition requireAuth (e : env) (r : request) (s : state)
    (route : state -> outcome) : outcome :=
  if Session.authenticated (sessions s) (cookie r) (now e)
  then route s
  else redirect "/cms/login" s [].

(** [POST /cms/login] (lines 98-119). A failing [db.get], and
    [bcrypt.compare] called without a password, throw inside the [try]
    block and end in its [catch]. The session is saved in the store; its
    cookie is sent when the session is new or changed, and never when
    [cookie.secure] is set: the server listens over plain HTTP (line 188)
    and does not trust a proxy, so no request counts as secure. *)
Definition postLogin (e : env) (r : request)
    (username password : option string) (s : state) : outcome :=
  let failed := redirect "/cms/login?error=1" s in
  if dbFault e then failed [DbGetUser username]
  else
    match Db.getUser username (users s) with
    | None => failed [DbGetUser username]
    | Some u =>
        let checked := [DbGetUser username; BcryptCompare (u_password u)] in
        match password with
        | None => failed checked
        | Some pw =>
            if bcrypt_compare pw (u_password u) then
              let current := Session.load (sessions s) (cookie r) (now e) in
              let sid := match current with
                         | Some (sid, _) => sid
                         | None => newSid e
                         end in
              let modified := match current with
                              | Some (_, se) => negb (userId se =? u_id u)
                              | None => true
                              end in
              let se := {| userId := u_id u;
                           expires := now e + Session.maxAge |} in
              {| resp := {| status := 302;
                            body := Redirect "/cms/dashboard";
                            setCookie := if secureCookie s then None
                                         else if modified then Some sid
                                         else None |};
                 next := setSessions (<[sid := se]> (sessions s)) s;
                 log := checked ++ [SessionSave sid] |}
            else failed checked
        end
    end.

(** [GET /cms/logout] (lines 121-124). *)
Definition getLogout (e : env) (r : request) (s : state) : outcome :=
  match Session.load (sessions s) (cookie r) (now e) with
  | Some (sid, _) =>
      redirect "/cms/login" (setSessions (delete sid (sessions s)) s)
               [SessionDestroy sid]
  | None => redirect "/cms/login" s []
  end.

(** [GET /cms/posts] behind [requireAuth] (lines 130-138). *)
Definition getPosts (e : env) (s : state) : outcome :=
  if dbFault e then reply 500 (JsonError "Database error") s [DbAllPosts]
  else reply 200 (JsonPosts (Db.selectPosts (posts s))) s [DbAllPosts].

(** [POST /cms/posts] behind [requireAuth] (lines 140-178). *)
Definition postPosts (e : env) (title content : option string)
    (s : state) : outcome :=
  if negb (Js.truthy title) || negb (Js.truthy content) then
    reply 400 (JsonError "Title and content are required") s []
  else
    let title := fieldText title in
    let content := fieldText content in
    let date := isoNow e in
    let sl := slug title in
    match Db.insert (dbFault e) title content date sl (posts s) with
    | inl err =>
        reply 500 (JsonError "Database error") s
              [DbRunInsert title content date sl (inl err)]
    | inr (id, ps) =>
        let inserted := DbRunInsert title content date sl (inr id) in
        let s1 := setPosts ps s in
        let hugoContent := Hugo.hugoContent title date content in
        let filePath := Hugo.filePath sl in
        let failed := reply 500 (JsonError "Error creating post file") in
        match fsResult e with
        | FsOk =>
            reply 200 (JsonCreated id sl)
                  (setFiles (<[filePath := hugoContent]> (files s1)) s1)
                  [inserted; FsMkdir Hugo.dir;
                   FsWriteFile filePath hugoContent]
        | MkdirThrows => failed s1 [inserted; FsMkdir Hugo.dir]
        | WriteThrows leftover =>
            let fs := match leftover with
                      | Some part => <[filePath := part]> (files s1)
                      | None => files s1
                      end in
            failed (setFiles fs s1)
                   [inserted; FsMkdir Hugo.dir;
                    FsWriteFile filePath hugoContent]
        end
    end.

(** What follows the rate limiters: the body parsers (lines 71-72), the
    session middleware and the routes (lines 94-178). The error of a body
    the parsers refuse skips the session middleware and the routes and
    reaches the error-handling middleware (lines 181-184). *)
Definition dispatch (e : env) (r : request) (s : state) : outcome :=
  match target r with
  | Refused _ => reply 500 (JsonError "Something went wrong!") s []
  | GetLogin => reply 200 (File "login.html") s []
  | PostLogin username password => postLogin e r username password s
  | GetLogout => getLogout e r s
  | GetDashboard =>
      requireAuth e r s (fun s => reply 200 (File "dashboard.html") s [])
  | GetPosts => requireAuth e r s (getPosts e)
  | PostPosts title content =>
      requireAuth e r s (postPosts e title content)
  end.

(** One request through the application: [limiter] on every route
    (line 37), then [loginLimiter] on the routes under [/cms/login]
    (line 44), then the body parsers and the route. *)
Definition handle (s : state) (e : env) (r : request) : outcome :=
  let (ok, general) :=
    Limiter.consume Limiter.generalWindowMs Limiter.generalMax
                    (now e) (ip r) (generalHits s) in
  let s1 := setGeneralHits general s in
  if negb ok then tooMany s1
  else if underLogin (target r) then
    let (ok, login) :=
      Limiter.consume Limiter.loginWindowMs Limiter.loginMax
                      (now e) (ip r) (loginHits s1) in
    let s2 := setLoginHits login s1 in
    if negb ok then tooMany s2 else dispatch e r s2
  else dispatch e r s1.

(** A sequence of requests, each with what the platform decides for it. *)
Fixpoint run (s : state) (tr : list (env * request)) : list outcome :=
  match tr with
  | [] => []
  | (e, r) :: rest =>
      let o := handle s e r in
      o :: run (next o) rest
  end.

(** The state of the server after a sequence of requests. *)
Fixpoint after (s : state) (tr : list (env * request)) : state :=
  match tr with
  | [] => s
  | (e, r) :: rest => after (next (handle s e r)) rest
  end.

End Server.

(** Both rate limiters let the request through. *)
Definition admitted (s : state) (e : env) (r : request) : bool :=
  fst (Limiter.consume Limiter.generalWindowMs Limiter.generalMax
         (now e) (ip r) (generalHits s))
  && (if underLogin (target r)
      then fst (Limiter.consume Limiter.loginWindowMs Limiter.loginMax
                  (now e) (ip r) (loginHits s))
      else true).

(** The routes registered with [requireAuth], reached by a request whose
    body the parsers accepted. *)
Definition privileged (c : call) : bool :=
  match c with
  | GetDashboard | GetPosts | PostPosts _ _ => true
  | _ => false
  end.

(** The route a request is for. *)
Definition routeOf (c : call) : route :=
  match c with
  | GetLogin => RLoginPage
  | PostLogin _ _ => RLogin
  | GetLogout => RLogout
  | GetDashboard => RDashboard
  | GetPosts => RPosts
  | PostPosts _ _ => RNewPost
  | Refused to => to
  end.

(** The routes registered with [requireAuth] (lines 126, 130, 140). *)
Definition guarded (to : route) : bool :=
  match to with
  | RDashboard | RPosts | RNewPost => true
  | _ => false
  end.

(** The body parsers refuse the body of the request. *)
Definition refused (c : call) : bool :=
  match c with
  | Refused _ => true
  | _ => false
  end.

(** The answer of the error-handling middleware (lines 181-184). *)
Definition wentWrong : response :=
  {| status := 500; body := JsonError "Something went wrong!";
     setCookie := None |}.

(** Two states hold the same users, posts and files. *)
Definition sameData (a b : state) : Prop :=
  users a = users b /\ posts a = posts b /\ files a = files b.



(** Every request of the sequence comes in the hour that starts at [T]. *)
Definition withinHour (T : Z) (tr : list (env * request)) : Prop :=
  Forall (fun er => T <= now (fst er) < T + 60 * 60 * 1000) tr.

(** No window of [key] is open at time [t]. *)
Definition windowClosed (table : gmap string window) (key : string)
    (t : Z) : bool :=
  match table !! key with
  | Some w => resetTime w <=? t
  | None => true
  end.

(** The login window of [client] stays open to the end of the hour that
    starts at [T] with at least [n] requests counted; or, for [n = 0],
    it is not open at [T]. *)
Definition countedInHour (table : gmap string window) (client : string)
    (T : Z) (n : nat) : Prop :=
  (exists w, table !! client = Some w
             /\ T + 60 * 60 * 1000 <= resetTime w /\ (n <= hits w)%nat)
  \/ (n = 0%nat /\ windowClosed table client T = true).

(** The row a create-post request with title [t] and content [c] adds to
    the table [ps] at the clock reading [d]. *)
Definition newRow (ps : list post) (t c d : string) : post :=
  {| p_id := Db.nextId ps; p_title := t; p_content := c;
     p_date := d; p_slug := slug t |}.

(** A call that changes the table of posts or the files. *)
Definition isWrite (ev : event) : bool :=
  match ev with
  | DbRunInsert _ _ _ _ (inr _) | FsMkdir _ | FsWriteFile _ _ => true
  | _ => false
  end.

(** The answers of the create-post handler. *)
Definition created (id : Z) (sl : string) : response :=
  {| status := 200; body := JsonCreated id sl; setCookie := None |}.

Definition jsonError (st : Z) (message : string) : response :=
  {| status := st; body := JsonError message; setCookie := None |}.

(** ** Reading a content file back

    The format of the content file as the specification words it: a block
    between two [---] lines with the keys [title] (a double-quoted
    string), [date] (an ISO-8601 instant) and [draft] ([false]), a blank
    line, and the body. *)
Module FrontMatter.

Definition lf : ascii := ascii_of_N 10.
Definition dq : ascii := ascii_of_N 34.
Definition backslash : ascii := ascii_of_N 92.

(** The character an escape sequence of a double-quoted string stands
    for. *)
Definition unescape (c : ascii) : option ascii :=
  if Ascii.eqb c dq then Some dq
  else if Ascii.eqb c backslash then Some backslash
  else if Ascii.eqb c "/" then Some "/"%char
  else if Ascii.eqb c "n" then Some lf
  else if Ascii.eqb c "t" then Some (ascii_of_N 9)
  else if Ascii.eqb c "r" then Some (ascii_of_N 13)
  else if Ascii.eqb c "0" then Some (ascii_of_N 0)
  else None.

(** The text of a double-quoted string, read after its opening quote: the
    closing quote is the first quote that is not escaped, and nothing may
    follow it. *)
Fixpoint scan (s : string) : option string :=
  match s with
  | EmptyString => None
  | String c r =>
      if Ascii.eqb c dq then
        match r with
        | EmptyString => Some EmptyString
        | String _ _ => None
        end
      else if Ascii.eqb c backslash then
        match r with
        | EmptyString => None
        | String d r' =>
            match unescape d, scan r' with
            | Some x, Some t => Some (String x t)
            | _, _ => None
            end
        end
      else
        match scan r with
        | Some t => Some (String c t)
        | None => None
        end
  end.

Definition unquote (v : string) : option string :=
  match v with
  | String c r => if Ascii.eqb c dq then scan r else None
  | EmptyString => None
  end.

Fixpoint splitLines (s : string) : list string :=
  match s with
  | EmptyString => [EmptyString]
  | String c r =>
      if Ascii.eqb c lf then EmptyString :: splitLines r
      else
        match splitLines r with
        | l :: ls => String c l :: ls
        | [] => [String c EmptyString]
        end
  end.

Fixpoint joinLines (ls : list string) : string :=
  match ls with
  | [] => EmptyString
  | l :: rest =>
      match rest with
      | [] => l
      | _ :: _ => l +:+ String lf (joinLines rest)
      end
  end.

Fixpoint stripPrefix (p s : string) : option string :=
  match p with
  | EmptyString => Some s
  | String a p' =>
      match s with
      | String b s' => if Ascii.eqb a b then stripPrefix p' s' else None
      | EmptyString => None
      end
  end.

Definition isDigit (c : ascii) : bool :=
  ((48 <=? Js.code c) && (Js.code c <=? 57))%N.

(** [s] has the shape [shape], where a [d] of the shape stands for any
    digit. *)
Fixpoint hasShape (shape s : string) : bool :=
  match shape, s with
  | EmptyString, EmptyString => true
  | String p ps, String c cs =>
      (if Ascii.eqb p "d" then isDigit c else Ascii.eqb p c)
      && hasShape ps cs
  | _, _ => false
  end.

(** The instants [Date.prototype.toISOString] prints. *)
Definition isIso8601 (d : string) : bool :=
  hasShape "dddd-dd-ddTdd:dd:dd.dddZ" d.

Record document := {
  title : string; date : string; draft : bool; content : string }.

Definition read (file : string) : option document :=
  match splitLines file with
  | opening :: l1 :: l2 :: l3 :: closing :: blank :: rest =>
      if String.eqb opening "---" && String.eqb closing "---"
         && String.eqb blank EmptyString
         && String.eqb l3 "draft: false"
      then
        match stripPrefix "title: " l1, stripPrefix "date: " l2 with
        | Some v, Some d =>
            match unquote v with
            | Some t =>
                if isIso8601 d
                then Some {| title := t; date := d; draft := false;
                             content := joinLines rest |}
                else None
            | None => None
            end
        | _, _ => None
        end
      else None
  | _ => None
  end.

(** A title without quote, backslash or line feed. *)
Definition plain (t : string) : bool :=
  allChars (fun c => negb (Ascii.eqb c dq) && negb (Ascii.eqb c backslash)
                     && negb (Ascii.eqb c lf)) t.

End FrontMatter.

(** ** A small server to run the model on *)

Module Sample.

(** A stand-in for bcrypt: the hash of [pw] is [bcrypt:pw]. *)
Definition compare (pw hash : string) : bool :=
  String.eqb hash ("bcrypt:" +:+ pw).

Definition admin : user :=
  {| u_id := 1; u_username := "admin"; u_password := "bcrypt:s3cret" |}.

(** The server after its start and one login of the administrator. *)
Definition server : state :=
  {| users := [admin]; posts := []; files := ∅;
     sessions := {[ "sid-1" := {| userId := 1; expires := 86400000 |} ]};
     generalHits := ∅; loginHits := ∅; secureCookie := false |}.

Definition at_ (t : Z) (iso : string) : env :=
  {| now := t; isoNow := iso; dbFault := false; fsResult := FsOk;
     newSid := "sid-2" |}.

Definition failingWrite (t : Z) (iso : string) : env :=
  {| now := t; isoNow := iso; dbFault := false;
     fsResult := WriteThrows None; newSid := "sid-2" |}.

Definition operator (c : call) : request :=
  {| ip := "10.0.0.1"; cookie := Some "sid-1"; target := c |}.

Definition stranger (c : call) : request :=
  {| ip := "10.0.0.2"; cookie := None; target := c |}.

Definition hello : call := PostPosts (Some "Hello, World!") (Some "body").

(** The title [Say "hi"]. *)
Definition quoted : string := "Say " +:+ Hugo.quote +:+ "hi" +:+ Hugo.quote.

(** The operator sends the title [Say "hi"]. *)
Definition quotedOutcome : outcome :=
  handle compare server
    {| now := 1000; isoNow := "2024-05-01T10:00:00.000Z"; dbFault := false;
       fsResult := FsOk; newSid := "sid-2" |}
    (operator (PostPosts (Some quoted) (Some "body"))).

Definition t1 : string := "2024-05-01T10:00:00.000Z".
Definition t2 : string := "2024-05-01T10:05:00.000Z".
Definition t3 : string := "2024-05-01T10:10:00.000Z".

Definition second : call := PostPosts (Some "Second post") (Some "more").

(** Another title with the slug of [hello]. *)
Definition helloAgain : call := PostPosts (Some "Hello World?") (Some "again").

(** The server after [hello] with a failing write of the file. *)
Definition afterFailedWrite : state :=
  next (handle compare server (failingWrite 1000 t1) (operator hello)).

(** The server after [hello]. *)
Definition afterHello : state :=
  next (handle compare server (at_ 1000 t1) (operator hello)).

(** Two posts, one after the other. *)
Definition twoPosts : list (env * request) :=
  [ (at_ 1000 t1, operator hello); (at_ 2000 t2, operator second) ].





(** A create-post request without session whose body the parsers refuse. *)
Definition oversized : request := stranger (Refused RNewPost).

End Sample.

(** ** The start of the server (server.js lines 13-20 and 46-68) *)

Module Startup.

(** [requiredEnvVars] *)
Definition requiredEnvVars : list string :=
  ["SESSION_SECRET"; "ADMIN_PASSWORD"].

(** [!process.env[envVar]]: the variable is not set, or set to the empty
    string. *)
Definition unset (penv : gmap string string) (v : string) : bool :=
  negb (Js.truthy (penv !! v)).

(** The loop of lines 15-20: the first required variable that is unset is
    reported and the process exits with code 1 ([Some] of that name);
    otherwise the server goes on ([None]). *)
Definition validate (penv : gmap string string) : option string :=
  find (unset penv) requiredEnvVars.

(** The rowid of a new row of [users]. *)
Definition nextUserId (us : list user) : Z :=
  1 + fold_right Z.max 0 (map u_id us).

Definition nameTaken (name : string) (us : list user) : bool :=
  existsb (fun u => String.eqb (u_username u) name) us.

(** The callback of [bcrypt.hash] (lines 63-67). [hash] is [None] when
    bcrypt reports an error: nothing is inserted then.
    [INSERT OR IGNORE INTO users (username, password) VALUES ('admin', hash)]
    inserts nothing when the name is taken ([username TEXT UNIQUE]). *)
Definition bootstrapAdmin (hash : option string) (us : list user)
  : list user :=
  match hash with
  | None => us
  | Some h =>
      if nameTaken "admin" us then us
      else us ++ [ {| u_id := nextUserId us; u_username := "admin";
                      u_password := h |} ]
  end.

(** [secure: process.env.NODE_ENV === 'production'] (line 78). *)
Definition cookieSecure (penv : gmap string string) : bool :=
  bool_decide (penv !! "NODE_ENV" = Some "production").

(** The server once started on the database and the files it finds: the
    sessions and the counters of the rate limiters live in the memory of
    the process and start empty. *)
Definition start (penv : gmap string string) (hash : option string)
    (us : list user) (ps : list post) (fs : gmap string string) : state :=
  {| users := bootstrapAdmin hash us; posts := ps; files := fs;
     sessions := ∅; generalHits := ∅; loginHits := ∅;
     secureCookie := cookieSecure penv |}.

End Startup.

(** ** Vocabulary for the properties of the whole application *)

(** A row as the create-post handler writes it: the title is not empty
    and the slug is the one derived from it. *)
Definition rowOk (p : post) : Prop :=
  p_title p <> EmptyString /\ p_slug p = slug (p_title p).

(** No two rows share a slug, no two rows share an id. *)
Definition uniqueKeys (ps : list post) : Prop :=
  NoDup (map p_slug ps) /\ NoDup (map p_id ps).

(** The request comes from [client]. *)
Definition fromClient (client : string) (er : env * request) : bool :=
  String.eqb (ip (snd er)) client.

(** The answer is not the 429 of a rate limiter. *)
Definition served (o : outcome) : bool := negb (status (resp o) =? 429).

(** The number of requests of [client], in a sequence of requests run
    from state [s], that were served. *)
Fixpoint servedRequests (bcrypt_compare : string -> string -> bool)
    (client : string) (s : state) (tr : list (env * request)) : nat :=
  match tr with
  | [] => 0%nat
  | (e, r) :: rest =>
      let o := handle bcrypt_compare s e r in
      ((if String.eqb (ip r) client && served o then 1 else 0)
       + servedRequests bcrypt_compare client (next o) rest)%nat
  end.

(** The same for the requests under [/cms/login]: loads of the login page
    and login attempts. *)
Fixpoint servedLoginPath (bcrypt_compare : string -> string -> bool)
    (client : string) (s : state) (tr : list (env * request)) : nat :=
  match tr with
  | [] => 0%nat
  | (e, r) :: rest =>
      let o := handle bcrypt_compare s e r in
      ((if String.eqb (ip r) client && underLogin (target r) && served o
        then 1 else 0)
       + servedLoginPath bcrypt_compare client (next o) rest)%nat
  end.

(** Every request of the sequence comes in the quarter of an hour that
    starts at [T]. *)
Definition withinQuarter (T : Z) (tr : list (env * request)) : Prop :=
  Forall (fun er => T <= now (fst er) < T + 15 * 60 * 1000) tr.

(** The general window of [client] stays open to the end of the quarter of
    an hour that starts at [T] with at least [n] requests counted; or, for
    [n = 0], it is not open at [T]. *)
Definition countedInQuarter (table : gmap string window) (client : string)
    (T : Z) (n : nat) : Prop :=
  (exists w, table !! client = Some w
             /\ T + 15 * 60 * 1000 <= resetTime w /\ (n <= hits w)%nat)
  \/ (n = 0%nat /\ windowClosed table client T = true).

(** Every character of [x] lower-cases to a character outside
    [[a-z0-9]]: [x] is a piece of a run that becomes a hyphen. *)
Definition isSeparator (x : string) : bool :=
  allChars (fun c => negb (Js.isAlnum (Js.lowerUnit c))) x.

(** [a] is strictly smaller than [b] as TEXT. *)
Definition textLt (a b : string) : Prop := textLe a b /\ a <> b.

(** At time [t0] the store holds no session of identifier [sid] that is
    still valid: none at all, or one whose expiry is not after [t0]. *)
Definition ended (ss : gmap string session) (sid : string) (t0 : Z) : Prop :=
  match ss !! sid with
  | Some se => expires se <= t0
  | None => True
  end.


(** ** More runs of the small server *)

Module Scenario.

(** The environment of a server started for development: both secrets
    are set and [NODE_ENV] is not. *)
Definition development : gmap string string :=
  <["ADMIN_PASSWORD" := "s3cret"]> {[ "SESSION_SECRET" := "0123456789" ]}.

(** The login of a new client with the password of the administrator. *)
Definition login : request :=
  Sample.stranger (PostLogin (Some "admin") (Some "s3cret")).


(** Five loads of the login page by one client, a minute apart. *)
Definition fivePageLoads : list (env * request) :=
  [ (Sample.at_ 60000 Sample.t1, Sample.stranger GetLogin);
    (Sample.at_ 120000 Sample.t1, Sample.stranger GetLogin);
    (Sample.at_ 180000 Sample.t1, Sample.stranger GetLogin);
    (Sample.at_ 240000 Sample.t1, Sample.stranger GetLogin);
    (Sample.at_ 300000 Sample.t2, Sample.stranger GetLogin) ].

(** A hundred requests for the dashboard by one client without session,
    within the same second. *)
Definition hundredRequests : list (env * request) :=
  repeat (Sample.at_ 1000 Sample.t1, Sample.stranger GetDashboard) 100.

End Scenario.

(** * Properties *)

(** ** Slug derivation *)

Section SlugFacts.

Lemma alnum_not_hyphen c : Js.isAlnum c = true -> Ascii.eqb c Js.hyphen = false.
Proof.
  intros Hc. destruct (Ascii.eqb_spec c Js.hyphen) as [->|]; [|reflexivity].
  vm_compute in Hc. discriminate.
Qed.

Lemma replaceRuns_chars b s : allChars isSlugChar (Js.replaceRuns b s) = true.
Proof.
  revert b. induction s as [|c r IH]; intros b; simpl; [reflexivity|].
  destruct (Js.isAlnum c) eqn:Hc.
  - simpl. unfold isSlugChar at 1. rewrite Hc. simpl. apply IH.
  - destruct b; [apply IH|]. simpl. apply IH.
Qed.

(** Inside a run the output does not begin with a hyphen; in both modes it
    has no two hyphens in a row. *)
Lemma replaceRuns_hyphens s :
  (startsWithHyphen (Js.replaceRuns true s) = false
   /\ noDoubleHyphen (Js.replaceRuns true s) = true)
  /\ noDoubleHyphen (Js.replaceRuns false s) = true.
Proof.
  induction s as [|c r [[IHs IHt] IHf]]; simpl; [auto|].
  destruct (Js.isAlnum c) eqn:Hc.
  - pose proof (alnum_not_hyphen c Hc) as Hh.
    assert (Hn : noDoubleHyphen (String c (Js.replaceRuns false r)) = true).
    { simpl. rewrite Hh. simpl. rewrite IHf.
      destruct (Js.replaceRuns false r); reflexivity. }
    repeat split; [simpl; exact Hh | exact Hn | exact Hn].
  - repeat split; [exact IHs | exact IHt |].
    simpl. destruct (Js.replaceRuns true r) as [|d w] eqn:Hw; [reflexivity|].
    simpl in IHs. rewrite IHs. simpl. exact IHt.
Qed.

(** The scan of the code and the cutting into runs of the specification
    agree: a run outside the class that continues the match in progress
    gives no further hyphen. *)
Lemma replaceRuns_runs s :
  Js.replaceRuns false s = SlugSpec.concat (map SlugSpec.render (SlugSpec.runs s))
  /\ Js.replaceRuns true s =
     match SlugSpec.runs s with
     | (false, _) :: rest => SlugSpec.concat (map SlugSpec.render rest)
     | l => SlugSpec.concat (map SlugSpec.render l)
     end.
Proof.
  induction s as [|c r [IHf IHt]]; [split; reflexivity|].
  simpl. destruct (Js.isAlnum c) eqn:Hc.
  - rewrite IHf. destruct (SlugSpec.runs r) as [|[k w] rest]; [split; reflexivity|].
    destruct k; simpl; split; reflexivity.
  - rewrite IHt. destruct (SlugSpec.runs r) as [|[k w] rest]; [split; reflexivity|].
    destruct k; simpl; split; reflexivity.
Qed.

Lemma replaceRuns_first s :
  startsWithHyphen (Js.replaceRuns false s) = firstOutside s.
Proof.
  destruct s as [|c r]; [reflexivity|]. simpl.
  destruct (Js.isAlnum c) eqn:Hc; simpl; [|reflexivity].
  apply alnum_not_hyphen, Hc.
Qed.

Lemma replaceRuns_false_nonempty c r : Js.replaceRuns false (String c r) <> EmptyString.
Proof. simpl. destruct (Js.isAlnum c); discriminate. Qed.

Lemma endsWithHyphen_cons c w :
  w <> EmptyString -> endsWithHyphen (String c w) = endsWithHyphen w.
Proof. destruct w; [congruence|reflexivity]. Qed.

Lemma replaceRuns_last s :
  s <> EmptyString ->
  endsWithHyphen (Js.replaceRuns false s) = lastOutside s
  /\ endsWithHyphen (String Js.hyphen (Js.replaceRuns true s)) = lastOutside s.
Proof.
  induction s as [|c r IH]; [congruence|]. intros _.
  destruct r as [|d r'].
  - simpl. destruct (Js.isAlnum c) eqn:Hc; simpl.
    + rewrite (alnum_not_hyphen c Hc). auto.
    + auto.
  - destruct IH as [IHf IHt]; [discriminate|].
    pose proof (replaceRuns_false_nonempty d r') as Hne.
    change (lastOutside (String c (String d r'))) with (lastOutside (String d r')).
    cbn [Js.replaceRuns]. destruct (Js.isAlnum c) eqn:Hc.
    + rewrite !endsWithHyphen_cons by (try discriminate; exact Hne). auto.
    + auto.
Qed.

End SlugFacts.

(** ** The order of TEXT values and the listing *)

Section Listing.

Lemma textLe_trans a : forall b c, textLe a b -> textLe b c -> textLe a c.
Proof.
  unfold textLe, String.leb.
  induction a as [|x a IH]; intros [|y b] [|z c]; simpl; try congruence; auto.
  unfold Ascii.compare.
  destruct (N.compare_spec (N_of_ascii x) (N_of_ascii y)),
           (N.compare_spec (N_of_ascii y) (N_of_ascii z)),
           (N.compare_spec (N_of_ascii x) (N_of_ascii z));
    try congruence; try lia; auto.
  apply IH.
Qed.

Lemma textLe_total a b : textLe a b \/ textLe b a.
Proof. apply String.leb_total. Qed.

Lemma textLe_refl a : textLe a a.
Proof. destruct (textLe_total a a); assumption. Qed.

#[local] Instance dateDesc_trans : Transitive Db.dateDesc.
Proof. intros a b c Hab Hbc. unfold Db.dateDesc in *. eapply textLe_trans; eassumption. Qed.

#[local] Instance dateDesc_total : Total Db.dateDesc.
Proof. intros a b. unfold Db.dateDesc. apply textLe_total. Qed.

Lemma selectPosts_perm ps : Db.selectPosts ps ≡ₚ map summarize ps.
Proof.
  unfold Db.selectPosts, Db.orderByDateDesc.
  apply Permutation_map, merge_sort_Permutation.
Qed.

Lemma selectPosts_sorted ps : StronglySorted newestFirst (Db.selectPosts ps).
Proof.
  unfold Db.selectPosts, Db.orderByDateDesc.
  assert (Hs : StronglySorted Db.dateDesc (merge_sort Db.dateDesc ps))
    by apply (StronglySorted_merge_sort _).
  induction Hs as [|p l Hs IH Hall]; simpl; constructor; [exact IH|].
  apply Forall_forall. intros q Hq. apply list_elem_of_In in Hq.
  apply in_map_iff in Hq as (p' & <- & Hp').
  rewrite Forall_forall in Hall. apply Hall. apply list_elem_of_In, Hp'.
Qed.

End Listing.

(** ** The application *)

Section Application.

Variable bcrypt_compare : string -> string -> bool.

Local Abbreviation handle' := (handle bcrypt_compare).
Local Abbreviation dispatch' := (dispatch bcrypt_compare).
Local Abbreviation after' := (after bcrypt_compare).
Local Abbreviation run' := (run bcrypt_compare).

Lemma sameStores_refl s : sameStores s s.
Proof. repeat split. Qed.

(** The rate limiters only touch their counters: a request is either
    turned away, or handed to its route with the stores as they were. *)
Lemma handle_split s e r :
  exists s1, sameStores s s1 /\
    handle' s e r = (if admitted s e r then dispatch' e r s1 else tooMany s1).
Proof.
  unfold handle, admitted. cbn [loginHits setGeneralHits].
  destruct (Limiter.consume Limiter.generalWindowMs Limiter.generalMax
              (now e) (ip r) (generalHits s)) as [ok g].
  destruct (Limiter.consume Limiter.loginWindowMs Limiter.loginMax
              (now e) (ip r) (loginHits s)) as [ok' l].
  cbn [fst snd].
  destruct ok, (underLogin (target r)), ok'; cbn [negb andb];
    eexists; (split; [|reflexivity]); repeat split.
Qed.

Lemma dispatch_guarded e r s :
  privileged (target r) = true ->
  Session.authenticated (sessions s) (cookie r) (now e) = false ->
  dispatch' e r s = {| resp := toLogin; next := s; log := [] |}.
Proof.
  intros Hp Ha. unfold dispatch, requireAuth.
  destruct (target r); try discriminate; rewrite Ha; reflexivity.
Qed.

(** A body the parsers refuse is answered by the error-handling
    middleware, whatever the route and the session. *)
Lemma dispatch_refused e r s :
  refused (target r) = true ->
  dispatch' e r s = {| resp := wentWrong; next := s; log := [] |}.
Proof.
  intros Hr. unfold dispatch.
  destruct (target r); try discriminate; reflexivity.
Qed.

Lemma sameStores_sameData a b : sameStores a b -> sameData a b.
Proof. intros (Hu & Hp & Hf & _). repeat split; assumption. Qed.

(** C5. Every privileged route (the dashboard, the listing of posts, the
    creation of a post) checks the session first. A request for one of
    these routes without a valid session is denied and nothing else runs:
    no call to the database or the file system is made, and the users, the
    posts and the files are what they were. The answer is the redirection
    to the login page; it is 429 when a rate limiter turns the request
    away before that, and 500 "Something went wrong!" when the body parsers
    refuse its body before that. *)
Theorem privileged_routes_check_session_first s e r :
  guarded (routeOf (target r)) = true ->
  Session.authenticated (sessions s) (cookie r) (now e) = false ->
  resp (handle' s e r) =
    (if admitted s e r
     then if refused (target r) then wentWrong else toLogin
     else rateLimited)
  /\ log (handle' s e r) = []
  /\ sameData s (next (handle' s e r)).
Proof.
  intros Hg Ha.
  destruct (handle_split s e r) as (s1 & Hsame & ->).
  assert (Ha1 : Session.authenticated (sessions s1) (cookie r) (now e) = false).
  { destruct Hsame as (_ & _ & _ & <-). exact Ha. }
  apply sameStores_sameData in Hsame.
  destruct (admitted s e r); [|simpl; auto].
  destruct (refused (target r)) eqn:Hr.
  - rewrite (dispatch_refused e r s1 Hr). auto.
  - assert (Hp : privileged (target r) = true)
      by (destruct (target r); try discriminate; reflexivity).
    rewrite (dispatch_guarded e r s1 Hp Ha1). auto.
Qed.

(** What a request does to the stores: either it leaves the users, the
    posts and the files alone and makes no writing call, or it is an
    authenticated, well-formed create-post request whose slug is free, and
    it appends one row and goes on to the file system. *)
Lemma handle_cases s e r :
  (users (next (handle' s e r)) = users s
   /\ posts (next (handle' s e r)) = posts s
   /\ files (next (handle' s e r)) = files s
   /\ (forall ev, In ev (log (handle' s e r)) -> isWrite ev = false)
   /\ (forall id sl, body (resp (handle' s e r)) <> JsonCreated id sl))
  \/ (exists t c,
        let d := isoNow e in
        let row := newRow (posts s) t c d in
        let path := Hugo.filePath (slug t) in
        let doc := Hugo.hugoContent t d c in
        target r = PostPosts (Some t) (Some c)
        /\ Session.authenticated (sessions s) (cookie r) (now e) = true
        /\ admitted s e r = true
        /\ t <> EmptyString /\ c <> EmptyString
        /\ dbFault e = false
        /\ Db.slugTaken (slug t) (posts s) = false
        /\ users (next (handle' s e r)) = users s
        /\ sessions (next (handle' s e r)) = sessions s
        /\ posts (next (handle' s e r)) = posts s ++ [row]
        /\ log (handle' s e r) =
             DbRunInsert t c d (slug t) (inr (p_id row)) :: FsMkdir Hugo.dir ::
             match fsResult e with
             | MkdirThrows => []
             | _ => [FsWriteFile path doc]
             end
        /\ resp (handle' s e r) =
             match fsResult e with
             | FsOk => created (p_id row) (slug t)
             | _ => jsonError 500 "Error creating post file"
             end
        /\ files (next (handle' s e r)) =
             match fsResult e with
             | FsOk => <[path := doc]> (files s)
             | WriteThrows (Some part) => <[path := part]> (files s)
             | _ => files s
             end).
Proof.
  destruct (handle_split s e r) as (s1 & (Hu & Hp & Hf & Hs) & ->).
  destruct (admitted s e r) eqn:Hadm;
    [|left; simpl; repeat split; auto; try (intros ? []); discriminate].
  unfold dispatch.
  destruct (target r) as [|un pw| | | |title content|to] eqn:Ht;
    [| | | | | |left; simpl; repeat split; auto; try (intros ? []); discriminate].
  - left. simpl. repeat split; auto; try (intros ? []); discriminate.
  - left. unfold postLogin.
    destruct (dbFault e);
      [simpl; repeat split; auto; try discriminate;
       intros ? [<-|[]]; reflexivity|].
    destruct (Db.getUser un (users s1)) as [u|];
      [|simpl; repeat split; auto; try discriminate;
        intros ? [<-|[]]; reflexivity].
    destruct pw as [pw|];
      [|simpl; repeat split; auto; try discriminate;
        intros ? [<-|[<-|[]]]; reflexivity].
    destruct (bcrypt_compare pw (u_password u));
      simpl; repeat split; auto; try discriminate.
    + intros ? [<-|[<-|[<-|[]]]]; reflexivity.
    + intros ? [<-|[<-|[]]]; reflexivity.
  - left. unfold getLogout.
    destruct (Session.load (sessions s1) (cookie r) (now e)) as [[sid se]|];
      simpl; repeat split; auto; try discriminate.
    + intros ? [<-|[]]; reflexivity.
    + intros ? [].
  - left. unfold requireAuth.
    destruct (Session.authenticated (sessions s1) (cookie r) (now e));
      simpl; repeat split; auto; try (intros ? []); discriminate.
  - left. unfold requireAuth, getPosts.
    destruct (Session.authenticated (sessions s1) (cookie r) (now e));
      [destruct (dbFault e)|];
      simpl; repeat split; auto; try discriminate;
      try (intros ? [<-|[]]; reflexivity); intros ? [].
  - unfold requireAuth. rewrite <- Hs.
    destruct (Session.authenticated (sessions s) (cookie r) (now e)) eqn:Ha;
      [|left; simpl; repeat split; auto; try (intros ? []); discriminate].
    unfold postPosts.
    destruct title as [[|a t]|];
      try (left; simpl; repeat split; auto; try (intros ? []); discriminate).
    destruct content as [[|b c]|];
      try (left; simpl; repeat split; auto; try (intros ? []); discriminate).
    cbn [Js.truthy negb orb fieldText].
    unfold Db.insert. rewrite <- Hp.
    destruct (dbFault e) eqn:Hdb;
      [left; simpl; repeat split; auto; try discriminate;
       intros ? [<-|[]]; reflexivity|].
    destruct (Db.slugTaken (slug (String a t)) (posts s)) eqn:Htaken;
      [left; simpl; repeat split; auto; try discriminate;
       intros ? [<-|[]]; reflexivity|].
    right. exists (String a t), (String b c). cbv zeta.
    destruct (fsResult e) as [| |[part|]]; simpl;
      rewrite <- ?Hf, <- ?Hs; repeat split; auto; discriminate.
Qed.

(** C6. A create-post request in whose body, as the parsers read it, the
    title or the content is missing or empty ends before any stateful
    step: it makes no call at all (no insert is attempted, no file is
    written), the users, the posts and the files are what they were, and
    when it comes from an authenticated session and passes the rate
    limiters its answer is the client error 400 "Title and content are
    required". *)
Theorem empty_title_or_content_is_rejected_first s e r title content :
  target r = PostPosts title content ->
  Js.truthy title = false \/ Js.truthy content = false ->
  log (handle' s e r) = []
  /\ sameData s (next (handle' s e r))
  /\ (admitted s e r = true ->
      Session.authenticated (sessions s) (cookie r) (now e) = true ->
      resp (handle' s e r) = jsonError 400 "Title and content are required").
Proof.
  intros Ht Hfalsy.
  destruct (handle_split s e r) as (s1 & Hsame & ->).
  assert (Hinvalid : negb (Js.truthy title) || negb (Js.truthy content) = true).
  { destruct Hfalsy as [-> | ->]; [reflexivity | apply orb_true_r]. }
  pose proof (sameStores_sameData _ _ Hsame) as Hdata.
  destruct (admitted s e r); [|simpl; repeat split; auto; try apply Hdata; discriminate].
  unfold dispatch, requireAuth, postPosts. rewrite Ht, Hinvalid.
  destruct Hsame as (Hu & Hp & Hf & Hs). rewrite <- Hs.
  destruct (Session.authenticated (sessions s) (cookie r) (now e));
    simpl; repeat split; auto; try apply Hdata; discriminate.
Qed.

(** C10. A create-post request that succeeds computes one slug and one
    date and uses them everywhere: the slug of the inserted row, the slug
    of the JSON answer and the stem of the name of the written file are
    the same string, and the date of the row is, character for character,
    what stands after [date: ] on the line of the front matter of the
    written file: the file is the three dashes, the line of the title
    between quotes, the line [date: ] with the date of the row, the line
    [draft: false], the three dashes, an empty line and the content. *)
Theorem created_post_has_one_slug_and_one_date s e r id sl :
  body (resp (handle' s e r)) = JsonCreated id sl ->
  exists t c d,
    let row := {| p_id := id; p_title := t; p_content := c;
                  p_date := d; p_slug := sl |} in
    let lf := String (ascii_of_N 10) EmptyString in
    let dq := String (ascii_of_N 34) EmptyString in
    let file :=
      "---" +:+ lf +:+
      "title: " +:+ dq +:+ p_title row +:+ dq +:+ lf +:+
      "date: " +:+ p_date row +:+ lf +:+
      "draft: false" +:+ lf +:+
      "---" +:+ lf +:+
      lf +:+
      p_content row in
    let path := "content/posts/" +:+ p_slug row +:+ ".md" in
    target r = PostPosts (Some t) (Some c)
    /\ sl = slug t /\ d = isoNow e
    /\ resp (handle' s e r) = created id sl
    /\ posts (next (handle' s e r)) = posts s ++ [row]
    /\ log (handle' s e r) =
         [ DbRunInsert t c d sl (inr id); FsMkdir "content/posts";
           FsWriteFile path file ]
    /\ files (next (handle' s e r)) !! path = Some file.
Proof.
  intros Hbody.
  destruct (handle_cases s e r) as [(_ & _ & _ & _ & Hno)|(t & c & H)];
    [destruct (Hno id sl Hbody)|].
  cbv zeta in H.
  destruct H as (Ht & _ & _ & _ & _ & _ & _ & _ & _ & Hposts & Hlog & Hresp & Hfiles).
  rewrite Hresp in Hbody.
  destruct (fsResult e) as [| |leftover]; try discriminate.
  injection Hbody as <- <-.
  exists t, c, (isoNow e). cbv zeta. cbn [p_title p_date p_content p_slug].
  rewrite Hposts, Hlog, Hresp, Hfiles.
  repeat split; auto.
  apply (lookup_insert_eq (files s)).
Qed.

(** What a listing answers: the rows of the table, sorted. *)
Lemma listing_inv s e r rows :
  body (resp (handle' s e r)) = JsonPosts rows ->
  rows = Db.selectPosts (posts s).
Proof.
  destruct (handle_split s e r) as (s1 & (Hu & Hp & Hf & Hs) & ->).
  destruct (admitted s e r); [|discriminate].
  unfold dispatch, requireAuth, postLogin, getLogout, getPosts, postPosts.
  rewrite Hp.
  repeat match goal with
         | |- context [match ?x with _ => _ end] => destruct x
         end; simpl; intros Hb; try discriminate.
  injection Hb as <-. reflexivity.
Qed.

(** A listing is served to an authenticated request that passes the rate
    limiter when the database answers. *)
Lemma listing_served s e r :
  target r = GetPosts ->
  admitted s e r = true ->
  Session.authenticated (sessions s) (cookie r) (now e) = true ->
  dbFault e = false ->
  resp (handle' s e r) =
    {| status := 200; body := JsonPosts (Db.selectPosts (posts s));
       setCookie := None |}.
Proof.
  intros Ht Hadm Ha Hdb.
  destruct (handle_split s e r) as (s1 & (Hu & Hp & Hf & Hs) & ->).
  rewrite Hadm. unfold dispatch, requireAuth, getPosts.
  rewrite Ht, <- Hs, Ha, Hdb, <- Hp. reflexivity.
Qed.

(** Rows are never removed or changed: the table only grows, and every
    row added carries the clock reading of the request that added it. *)
Lemma after_grows tr : forall s,
  exists added,
    posts (after' s tr) = posts s ++ added
    /\ Forall (fun p => exists e r, In (e, r) tr /\ p_date p = isoNow e) added.
Proof.
  induction tr as [|[e r] tr IH]; intros s.
  - exists []. simpl. rewrite app_nil_r. split; [reflexivity|constructor].
  - simpl. destruct (IH (next (handle' s e r))) as (added & Hadd & Hall).
    assert (Hall' : Forall (fun p => exists e0 r0,
                      In (e0, r0) ((e, r) :: tr) /\ p_date p = isoNow e0) added).
    { eapply Forall_impl; [exact Hall|].
      intros p (e0 & r0 & Hin & Hd). exists e0, r0. split; [right; exact Hin|exact Hd]. }
    destruct (handle_cases s e r) as [(_ & Hp & _)|(t & c & H)].
    + exists added. rewrite Hadd, Hp. split; [reflexivity|exact Hall'].
    + cbv zeta in H.
      destruct H as (_ & _ & _ & _ & _ & _ & _ & _ & _ & Hp & _).
      exists (newRow (posts s) t c (isoNow e) :: added).
      rewrite Hadd, Hp, <- app_assoc. split; [reflexivity|].
      constructor; [|exact Hall'].
      exists e, r. split; [left; reflexivity|reflexivity].
Qed.

(** C1. When the insert of a create-post request succeeds and the write of
    the content file fails, the client is told of a failure (500 "Error
    creating post file") and the row stays: it is in the table right
    after the request, it is still there after any further requests, and
    every listing served afterwards shows it. *)
Theorem row_survives_failed_file_write s e r t c d sl id tr e' r' rows :
  In (DbRunInsert t c d sl (inr id)) (log (handle' s e r)) ->
  fsResult e <> FsOk ->
  body (resp (handle' (after' (next (handle' s e r)) tr) e' r'))
    = JsonPosts rows ->
  let row := {| p_id := id; p_title := t; p_content := c;
                p_date := d; p_slug := sl |} in
  resp (handle' s e r) = jsonError 500 "Error creating post file"
  /\ posts (next (handle' s e r)) = posts s ++ [row]
  /\ In row (posts (after' (next (handle' s e r)) tr))
  /\ In (summarize row) rows.
Proof.
  intros Hins Hfs Hlist row.
  destruct (handle_cases s e r) as [(_ & _ & _ & Hno & _)|(t0 & c0 & H)].
  { apply Hno in Hins. discriminate. }
  cbv zeta in H.
  destruct H as (_ & _ & _ & _ & _ & _ & _ & _ & _ & Hp & Hlog & Hresp & _).
  rewrite Hlog in Hins.
  assert (Hrow : row = newRow (posts s) t0 c0 (isoNow e)).
  { destruct Hins as [Heq|[Heq|Hin]]; [|discriminate|].
    - subst row. injection Heq as E1 E2 E3 E4 E5. subst. reflexivity.
    - destruct (fsResult e); [destruct Hin as [?|[]]| destruct Hin |destruct Hin as [?|[]]];
        discriminate. }
  assert (Hin : In row (posts (after' (next (handle' s e r)) tr))).
  { destruct (after_grows tr (next (handle' s e r))) as (added & -> & _).
    rewrite Hp, <- Hrow. apply in_or_app. left. apply in_or_app. right. left. reflexivity. }
  repeat split.
  - rewrite Hresp. destruct (fsResult e); [congruence|reflexivity|reflexivity].
  - rewrite Hp, Hrow. reflexivity.
  - exact Hin.
  - rewrite (listing_inv _ _ _ _ Hlist).
    apply (Permutation_in _ (Permutation_sym (selectPosts_perm _))).
    apply in_map, Hin.
Qed.

(** The name of a content file determines its slug. *)
Lemma append_length a b :
  String.length (a +:+ b) = (String.length a + String.length b)%nat.
Proof. induction a as [|x a IH]; simpl; [reflexivity|]. rewrite IH. reflexivity. Qed.

Lemma append_inj_r x a : forall b, a +:+ x = b +:+ x -> a = b.
Proof.
  induction a as [|c a IH]; intros [|d b] H; simpl in H.
  - reflexivity.
  - apply (f_equal String.length) in H. simpl in H.
    rewrite ?append_length in H. simpl in H. lia.
  - apply (f_equal String.length) in H. simpl in H.
    rewrite ?append_length in H. simpl in H. lia.
  - injection H as -> H. f_equal. apply IH, H.
Qed.

Lemma filePath_inj a b : Hugo.filePath a = Hugo.filePath b -> a = b.
Proof.
  unfold Hugo.filePath, Hugo.dir, Hugo.stem. simpl. intros H.
  repeat (injection H as H).
  change (a +:+ ".md" = b +:+ ".md") in H. exact (append_inj_r _ _ _ H).
Qed.

Lemma slugTaken_app sl ps qs :
  Db.slugTaken sl (ps ++ qs) = Db.slugTaken sl ps || Db.slugTaken sl qs.
Proof. apply existsb_app. Qed.

(** Once a slug is in the table it stays there, and no later request
    writes the file of that slug. *)
Lemma handle_keeps_slug s e r sl :
  Db.slugTaken sl (posts s) = true ->
  Db.slugTaken sl (posts (next (handle' s e r))) = true
  /\ files (next (handle' s e r)) !! Hugo.filePath sl
     = files s !! Hugo.filePath sl.
Proof.
  intros Htaken.
  destruct (handle_cases s e r) as [(_ & -> & -> & _)|(t & c & H)]; [auto|].
  cbv zeta in H.
  destruct H as (_ & _ & _ & _ & _ & _ & Hfree & _ & _ & -> & _ & _ & ->).
  split; [rewrite slugTaken_app, Htaken; reflexivity|].
  assert (Hne : Hugo.filePath (slug t) <> Hugo.filePath sl).
  { intros Heq. apply filePath_inj in Heq. congruence. }
  destruct (fsResult e) as [| |[part|]]; try reflexivity;
    apply lookup_insert_ne, Hne.
Qed.

Lemma after_keeps_slug tr sl : forall s,
  Db.slugTaken sl (posts s) = true ->
  Db.slugTaken sl (posts (after' s tr)) = true
  /\ files (after' s tr) !! Hugo.filePath sl = files s !! Hugo.filePath sl.
Proof.
  induction tr as [|[e r] tr IH]; intros s Htaken; [auto|].
  simpl. destruct (handle_keeps_slug s e r sl Htaken) as [Ht Hf].
  destruct (IH _ Ht) as [Ht' Hf']. split; [exact Ht'|congruence].
Qed.

(** C2. After a request has created a post with some slug, a later
    create-post request whose title, as the body parsers read it, derives
    the same slug does not overwrite or rename anything: it makes no
    writing call, the table and the files are left as they were, and the
    file of that slug still holds what the first request wrote. When the
    request gets as far as the insert (it passes the rate limiters, comes
    with a session, has a title and a content, and the database does not
    fail otherwise), the insert is refused by the UNIQUE constraint on
    the slug, which the client sees as 500 "Database error". *)
Theorem second_post_with_same_slug_is_refused
    s e1 r1 id sl tr e2 r2 title2 content2 :
  body (resp (handle' s e1 r1)) = JsonCreated id sl ->
  target r2 = PostPosts title2 content2 ->
  slug (fieldText title2) = sl ->
  let s1 := next (handle' s e1 r1) in
  let s2 := after' s1 tr in
  posts (next (handle' s2 e2 r2)) = posts s2
  /\ files (next (handle' s2 e2 r2)) = files s2
  /\ is_Some (files s1 !! Hugo.filePath sl)
  /\ files (next (handle' s2 e2 r2)) !! Hugo.filePath sl
     = files s1 !! Hugo.filePath sl
  /\ (forall ev, In ev (log (handle' s2 e2 r2)) -> isWrite ev = false)
  /\ (forall id' sl', body (resp (handle' s2 e2 r2)) <> JsonCreated id' sl')
  /\ (admitted s2 e2 r2 = true ->
      Session.authenticated (sessions s2) (cookie r2) (now e2) = true ->
      Js.truthy title2 = true -> Js.truthy content2 = true ->
      dbFault e2 = false ->
      log (handle' s2 e2 r2) =
        [ DbRunInsert (fieldText title2) (fieldText content2) (isoNow e2) sl
                      (inl Db.SQLITE_CONSTRAINT) ]
      /\ resp (handle' s2 e2 r2) = jsonError 500 "Database error").
Proof.
  intros Hfirst Ht2 Hsl s1 s2.
  (* the first request put the slug in the table and wrote its file *)
  assert (Hs1 : Db.slugTaken sl (posts s1) = true
                /\ is_Some (files s1 !! Hugo.filePath sl)).
  { subst s1.
    destruct (handle_cases s e1 r1) as [(_ & _ & _ & _ & Hno)|(t & c & H)];
      [destruct (Hno id sl Hfirst)|].
    cbv zeta in H.
    destruct H as (_ & _ & _ & _ & _ & _ & _ & _ & _ & -> & _ & Hresp & ->).
    rewrite Hresp in Hfirst.
    destruct (fsResult e1); try discriminate. injection Hfirst as <- <-.
    split.
    - rewrite slugTaken_app. simpl. rewrite String.eqb_refl.
      rewrite orb_true_r. reflexivity.
    - rewrite lookup_insert_eq. eauto. }
  destruct Hs1 as [Htaken1 Hfile1].
  destruct (after_keeps_slug tr sl s1 Htaken1) as [Htaken2 Hfile2].
  fold s2 in Htaken2, Hfile2.
  destruct (handle_cases s2 e2 r2)
    as [(_ & Hp & Hf & Hlog & Hno)|(t & c & H)].
  - split; [exact Hp|]. split; [exact Hf|]. split; [exact Hfile1|].
    split; [congruence|]. split; [exact Hlog|]. split; [exact Hno|].
    intros Hadm Ha Htt Htc Hdb.
    destruct (handle_split s2 e2 r2) as (s3 & (Hu3 & Hp3 & Hf3 & Hs3) & ->).
    rewrite Hadm. unfold dispatch, requireAuth, postPosts.
    rewrite Ht2, <- Hs3, Ha, Htt, Htc. cbn [negb orb].
    unfold Db.insert. rewrite Hdb, Hsl, <- Hp3, Htaken2. split; reflexivity.
  - cbv zeta in H. destruct H as (Ht & _ & _ & _ & _ & _ & Hfree & _).
    rewrite Ht2 in Ht. injection Ht as -> _. simpl in Hsl.
    congruence.
Qed.

(** What a successful insert recorded in the log tells. *)
Lemma insert_logged s e r t c d sl id :
  In (DbRunInsert t c d sl (inr id)) (log (handle' s e r)) ->
  target r = PostPosts (Some t) (Some c)
  /\ d = isoNow e /\ sl = slug t /\ id = Db.nextId (posts s)
  /\ posts (next (handle' s e r)) = posts s ++ [newRow (posts s) t c d].
Proof.
  intros Hins.
  destruct (handle_cases s e r) as [(_ & _ & _ & Hno & _)|(t0 & c0 & H)].
  { apply Hno in Hins. discriminate. }
  cbv zeta in H.
  destruct H as (Ht & _ & _ & _ & _ & _ & _ & _ & _ & Hp & Hlog & _).
  rewrite Hlog in Hins.
  destruct Hins as [Heq|[Heq|Hin]]; [|discriminate|].
  - injection Heq as E1 E2 E3 E4 E5. subst. auto.
  - destruct (fsResult e);
      [destruct Hin as [?|[]]| destruct Hin |destruct Hin as [?|[]]];
      discriminate.
Qed.

Lemma nextId_above ps p : In p ps -> p_id p < Db.nextId ps.
Proof.
  unfold Db.nextId. induction ps as [|q ps IH]; simpl; [intros []|].
  intros [<-|H]; [lia|]. specialize (IH H). lia.
Qed.



(** C8. A failed login does not tell the client why it failed: the answer
    to a login request with an unknown username and the answer to a login
    request with a known username and a wrong password are the same
    response, the redirection to [/cms/login?error=1] without any cookie.
    (The two requests are requests the rate limiters let through and whose
    bodies the parsers have read; a request turned away before the
    credential check is answered without a look at its username.) *)
Theorem failed_login_answers_are_identical
    s1 e1 r1 un1 pw1 s2 e2 r2 un2 pw2 u :
  target r1 = PostLogin un1 pw1 ->
  admitted s1 e1 r1 = true ->
  Db.getUser un1 (users s1) = None ->
  target r2 = PostLogin un2 (Some pw2) ->
  admitted s2 e2 r2 = true ->
  Db.getUser un2 (users s2) = Some u ->
  bcrypt_compare pw2 (u_password u) = false ->
  resp (handle' s1 e1 r1) = resp (handle' s2 e2 r2)
  /\ resp (handle' s1 e1 r1) =
       {| status := 302; body := Redirect "/cms/login?error=1";
          setCookie := None |}.
Proof.
  intros Ht1 Hadm1 Hnone Ht2 Hadm2 Hsome Hbad.
  destruct (handle_split s1 e1 r1) as (a1 & (Hu1 & _ & _ & Hs1) & ->).
  destruct (handle_split s2 e2 r2) as (a2 & (Hu2 & _ & _ & Hs2) & ->).
  rewrite Hadm1, Hadm2. unfold dispatch, postLogin.
  rewrite Ht1, Ht2, <- Hu1, <- Hu2, Hnone, Hsome, Hbad.
  destruct (dbFault e1), (dbFault e2); simpl; auto.
Qed.

(** ** The login rate limiter *)

Lemma dispatch_limiters e r s :
  loginHits (next (dispatch' e r s)) = loginHits s.
Proof.
  unfold dispatch, requireAuth, postLogin, getLogout, getPosts, postPosts.
  repeat match goal with
         | |- context [match ?x with _ => _ end] => destruct x
         end; reflexivity.
Qed.

Lemma counted_mono table client T n m :
  countedInHour table client T n -> (m <= n)%nat ->
  countedInHour table client T m.
Proof.
  intros [(w & Hw & Hr & Hn)|[-> Hc]] Hm.
  - left. exists w. repeat split; auto. lia.
  - right. split; [lia|exact Hc].
Qed.

(** Counting a request of [key] within the hour. *)
Lemma counted_count table client T n key t :
  T <= t < T + 60 * 60 * 1000 ->
  countedInHour table client T n ->
  countedInHour
    (<[key := Limiter.count Limiter.loginWindowMs t (table !! key)]> table)
    client T (n + (if String.eqb key client then 1 else 0)).
Proof.
  intros Ht Hc. destruct (String.eqb_spec key client) as [->|Hne].
  - left. destruct Hc as [(w & Hw & Hr & Hn)|[-> Hc]].
    + rewrite Hw. unfold Limiter.count.
      assert (Hlive : (t <? resetTime w) = true) by (apply Z.ltb_lt; lia).
      rewrite Hlive. eexists. rewrite lookup_insert_eq.
      split; [reflexivity|]. simpl. split; [exact Hr|lia].
    + unfold windowClosed in Hc. unfold Limiter.count.
      destruct (table !! client) as [w|] eqn:Hw.
      * apply Z.leb_le in Hc.
        assert (Hdead : (t <? resetTime w) = false) by (apply Z.ltb_ge; lia).
        rewrite Hdead. eexists. rewrite lookup_insert_eq.
        split; [reflexivity|]. simpl. unfold Limiter.loginWindowMs. lia.
      * eexists. rewrite lookup_insert_eq.
        split; [reflexivity|]. simpl. unfold Limiter.loginWindowMs. lia.
  - rewrite Nat.add_0_r. unfold countedInHour, windowClosed.
    rewrite lookup_insert_ne by exact Hne. exact Hc.
Qed.







End Application.

(** ** The slug of a title *)

(** C3, as amended. Slug derivation is a function of the title alone: it
    lower-cases the title and puts one hyphen for every maximal run of
    characters outside [[a-z0-9]], as the cutting into runs of the
    specification does. Its output holds only lowercase letters, digits
    and hyphens and never two hyphens in a row. It begins (ends) with a
    hyphen exactly when the lower-cased title begins (ends) with a
    character outside [[a-z0-9]]; the title "Hello, World!" derives the
    slug "hello-world-". *)
Theorem slug_chars_and_hyphens title :
  slug title = SlugSpec.derive title
  /\ allChars isSlugChar (slug title) = true
  /\ noDoubleHyphen (slug title) = true
  /\ startsWithHyphen (slug title) = firstOutside (Js.toLowerCase title)
  /\ endsWithHyphen (slug title) = lastOutside (Js.toLowerCase title)
  /\ slug "Hello, World!" = "hello-world-".
Proof.
  unfold slug, SlugSpec.derive, Js.replaceNonAlnum.
  split; [apply replaceRuns_runs|].
  split; [apply replaceRuns_chars|].
  split; [apply replaceRuns_hyphens|].
  split; [apply replaceRuns_first|].
  split; [|reflexivity].
  destruct title as [|c r]; [reflexivity|].
  apply replaceRuns_last. discriminate.
Qed.

(** The slug of "Hello, World!" is not "hello-world": it ends with the
    hyphen that stands for the exclamation mark; and the slug of "(a)"
    begins with a hyphen. *)
Lemma slug_hello_world_ends_with_hyphen :
  slug "Hello, World!" <> "hello-world"
  /\ endsWithHyphen (slug "Hello, World!") = true
  /\ startsWithHyphen (slug "(a)") = true.
Proof. split; [discriminate|split; reflexivity]. Qed.

(** ** The front matter of the content file *)

Section FrontMatterFacts.

Import FrontMatter.

(** No quote and no backslash in [t]. *)
Local Abbreviation unescaped t :=
  (allChars (fun c => negb (Ascii.eqb c dq) && negb (Ascii.eqb c backslash)) t).

Lemma scan_shorter (n : nat) : forall s t,
  (String.length s <= n)%nat -> scan s = Some t ->
  (String.length t < String.length s)%nat.
Proof.
  induction n as [|n IH]; intros [|c r] t Hn Hs; simpl in *;
    try discriminate; try lia.
  destruct (Ascii.eqb c dq).
  { destruct r; [injection Hs as <-; simpl; lia|discriminate]. }
  destruct (Ascii.eqb c backslash).
  - destruct r as [|d r']; [discriminate|].
    destruct (unescape d); [|discriminate].
    destruct (scan r') as [t'|] eqn:Hr'; [|discriminate].
    injection Hs as <-. simpl in *.
    assert (String.length t' < String.length r')%nat by (apply IH; [lia|exact Hr']).
    lia.
  - destruct (scan r) as [t'|] eqn:Hr; [|discriminate].
    injection Hs as <-. simpl.
    assert (String.length t' < String.length r)%nat by (apply IH; [lia|exact Hr]).
    lia.
Qed.

(** A quoted string that reads as a text one character shorter is that
    text followed by the closing quote, and the text has no quote and no
    backslash. *)
Lemma scan_exact s : forall t,
  scan s = Some t -> String.length s = S (String.length t) ->
  s = t +:+ Hugo.quote /\ unescaped t = true.
Proof.
  induction s as [|c r IH]; intros t Hs Hlen; simpl in Hs; [discriminate|].
  destruct (Ascii.eqb_spec c dq) as [->|Hq].
  { destruct r; [injection Hs as <-; split; reflexivity|discriminate]. }
  destruct (Ascii.eqb_spec c backslash) as [->|Hb].
  - destruct r as [|d r']; [discriminate|].
    destruct (unescape d); [|discriminate].
    destruct (scan r') as [t'|] eqn:Hr'; [|discriminate].
    injection Hs as <-. simpl in Hlen.
    pose proof (scan_shorter _ r' t' (Nat.le_refl _) Hr'). lia.
  - destruct (scan r) as [t'|] eqn:Hr; [|discriminate].
    injection Hs as <-. simpl in Hlen.
    destruct (IH t' eq_refl) as [-> Hu]; [lia|].
    split; [reflexivity|]. simpl. rewrite Hu.
    destruct (Ascii.eqb_spec c dq); [contradiction|].
    destruct (Ascii.eqb_spec c backslash); [contradiction|]. reflexivity.
Qed.

Lemma scan_unescaped t : unescaped t = true -> scan (t +:+ Hugo.quote) = Some t.
Proof.
  induction t as [|c t IH]; simpl; [reflexivity|].
  intros H. apply andb_prop in H as [Hc Ht]. apply andb_prop in Hc as [Hq Hb].
  apply negb_true_iff in Hq, Hb. rewrite Hq, Hb, (IH Ht). reflexivity.
Qed.

(** The value the template writes for the key [title] is a quoted string
    that holds the title exactly when the title has no quote and no
    backslash. *)
Lemma title_value_reads_back_iff t :
  unquote (Hugo.quote +:+ t +:+ Hugo.quote) = Some t <-> unescaped t = true.
Proof.
  change (scan (t +:+ Hugo.quote) = Some t <-> unescaped t = true).
  split; [|apply scan_unescaped].
  intros Hs. apply (scan_exact _ _ Hs).
  rewrite append_length. simpl. lia.
Qed.

Local Abbreviation noLf t := (allChars (fun c => negb (Ascii.eqb c lf)) t).

Lemma splitLines_line a b :
  noLf a = true ->
  splitLines (a +:+ String lf b) = a :: splitLines b.
Proof.
  induction a as [|x a IH]; simpl; [reflexivity|].
  intros H. apply andb_prop in H as [Hx Ha]. apply negb_true_iff in Hx.
  rewrite Hx, (IH Ha). reflexivity.
Qed.

Lemma splitLines_nl a b :
  noLf a = true -> splitLines (a +:+ Hugo.nl +:+ b) = a :: splitLines b.
Proof. apply splitLines_line. Qed.

Lemma append_assoc a b c : (a +:+ b) +:+ c = a +:+ b +:+ c.
Proof.
  induction a as [|x a IH]; [reflexivity|].
  change (String x ((a +:+ b) +:+ c) = String x (a +:+ b +:+ c)).
  f_equal. exact IH.
Qed.

Lemma append_assoc4 a b c d x :
  a +:+ b +:+ c +:+ d +:+ x = (a +:+ b +:+ c +:+ d) +:+ x.
Proof. rewrite !append_assoc. reflexivity. Qed.

Lemma splitLines_nonempty c : splitLines c <> [].
Proof.
  destruct c as [|x c]; simpl; [discriminate|].
  destruct (Ascii.eqb x lf); [discriminate|].
  destruct (splitLines c); discriminate.
Qed.

Lemma joinLines_splitLines c : joinLines (splitLines c) = c.
Proof.
  induction c as [|x c IH]; [reflexivity|]. simpl.
  pose proof (splitLines_nonempty c) as Hne.
  destruct (splitLines c) as [|l ls] eqn:Hc; [contradiction|].
  destruct (Ascii.eqb_spec x lf) as [->|Hx].
  - simpl in *. rewrite IH. reflexivity.
  - simpl in *. destruct ls; rewrite <- IH; reflexivity.
Qed.

Lemma noLf_app a b : noLf a = true -> noLf b = true -> noLf (a +:+ b) = true.
Proof.
  induction a as [|x a IH]; simpl; [auto|].
  intros H Hb. apply andb_prop in H as [-> Ha]. simpl. auto.
Qed.

Lemma hasShape_noLf shape : forall d,
  noLf shape = true -> hasShape shape d = true -> noLf d = true.
Proof.
  induction shape as [|p ps IH]; intros [|c cs] Hshape Hd; simpl in *;
    try discriminate; [reflexivity|].
  apply andb_prop in Hshape as [Hp Hps]. apply andb_prop in Hd as [Hc Hcs].
  rewrite (IH cs Hps Hcs), andb_true_r.
  destruct (Ascii.eqb p "d").
  - destruct (Ascii.eqb_spec c lf) as [->|]; [discriminate|reflexivity].
  - apply Ascii.eqb_eq in Hc as <-. exact Hp.
Qed.

Lemma plain_split t :
  plain t = true -> unescaped t = true /\ noLf t = true.
Proof.
  unfold plain. induction t as [|c t IH]; simpl; [auto|].
  intros H. apply andb_prop in H as [Hc Ht]. destruct (IH Ht) as [-> ->].
  apply andb_prop in Hc as [-> ->]. auto.
Qed.

(** For a title without quote, backslash or line feed and a date printed
    by [toISOString], the file the template produces is a front matter
    with the title, the date and [draft: false], a blank line and the
    content as it was sent. *)
Lemma hugoContent_reads_back t d c :
  plain t = true -> isIso8601 d = true ->
  read (Hugo.hugoContent t d c)
  = Some {| title := t; date := d; draft := false; content := c |}.
Proof.
  intros Hplain Hiso. destruct (plain_split t Hplain) as [Hu Hl].
  assert (Hd : noLf d = true)
    by (apply (hasShape_noLf "dddd-dd-ddTdd:dd:dd.dddZ" d eq_refl Hiso)).
  assert (Hfile : splitLines (Hugo.hugoContent t d c) =
            "---" :: ("title: " +:+ Hugo.quote +:+ t +:+ Hugo.quote)
            :: ("date: " +:+ d) :: "draft: false" :: "---" :: "" :: splitLines c).
  { unfold Hugo.hugoContent.
    rewrite (splitLines_nl "---") by reflexivity. f_equal.
    rewrite (append_assoc4 "title: " Hugo.quote t Hugo.quote).
    rewrite splitLines_nl
      by (apply (noLf_app "title: "); [reflexivity|];
          apply (noLf_app Hugo.quote); [reflexivity|];
          apply noLf_app; [exact Hl|reflexivity]).
    f_equal.
    rewrite <- (append_assoc "date: " d).
    rewrite splitLines_nl by (apply (noLf_app "date: "); [reflexivity|exact Hd]).
    reflexivity. }
  unfold read. rewrite Hfile.
  change (stripPrefix "title: " ("title: " +:+ Hugo.quote +:+ t +:+ Hugo.quote))
    with (Some (Hugo.quote +:+ t +:+ Hugo.quote)).
  change (stripPrefix "date: " ("date: " +:+ d)) with (Some d).
  cbn [String.eqb Ascii.eqb Bool.eqb andb].
  rewrite (proj2 (title_value_reads_back_iff t) Hu), Hiso, joinLines_splitLines.
  reflexivity.
Qed.

End FrontMatterFacts.

(** ** The model at work *)

(** C7 at the title [Say "hi"]. The request succeeds and writes
    [content/posts/say-hi-.md]; the line of the key [title] in that file
    is [title: "Say "hi""], whose value is not a quoted string: the quote
    before [hi] closes it and text follows. The file is not a front
    matter with the keys title, date and draft. *)
Theorem title_with_a_quote_breaks_the_front_matter :
  resp Sample.quotedOutcome = created 1 "say-hi-"
  /\ (exists file,
        files (next Sample.quotedOutcome) !! "content/posts/say-hi-.md"
          = Some file
        /\ FrontMatter.splitLines file =
             [ "---";
               "title: " +:+ Hugo.quote +:+ "Say " +:+ Hugo.quote +:+ "hi"
                 +:+ Hugo.quote +:+ Hugo.quote;
               "date: 2024-05-01T10:00:00.000Z";
               "draft: false"; "---"; ""; "body" ]
        /\ FrontMatter.read file = None)
  /\ FrontMatter.unquote (Hugo.quote +:+ Sample.quoted +:+ Hugo.quote) = None.
Proof.
  split; [reflexivity|]. split; [|reflexivity].
  eexists. split; [vm_compute; reflexivity|]. split; reflexivity.
Qed.

Lemma privileged_routes_check_session_first_witness :
  (resp (handle Sample.compare Sample.server (Sample.at_ 1000 Sample.t1)
           (Sample.stranger Sample.hello)) = toLogin
   /\ log (handle Sample.compare Sample.server (Sample.at_ 1000 Sample.t1)
             (Sample.stranger Sample.hello)) = []
   /\ sameData Sample.server
        (next (handle Sample.compare Sample.server (Sample.at_ 1000 Sample.t1)
                 (Sample.stranger Sample.hello))))
  /\ (resp (handle Sample.compare Sample.server (Sample.at_ 1000 Sample.t1)
              Sample.oversized) = wentWrong
      /\ log (handle Sample.compare Sample.server (Sample.at_ 1000 Sample.t1)
                Sample.oversized) = []
      /\ sameData Sample.server
           (next (handle Sample.compare Sample.server
                    (Sample.at_ 1000 Sample.t1) Sample.oversized))).
Proof.
  split.
  - exact (privileged_routes_check_session_first Sample.compare Sample.server
             (Sample.at_ 1000 Sample.t1) (Sample.stranger Sample.hello)
             eq_refl eq_refl).
  - exact (privileged_routes_check_session_first Sample.compare Sample.server
             (Sample.at_ 1000 Sample.t1) Sample.oversized eq_refl eq_refl).
Defined.

Lemma empty_title_or_content_is_rejected_first_witness :
  log (handle Sample.compare Sample.server (Sample.at_ 1000 Sample.t1)
         (Sample.operator (PostPosts (Some "") (Some "body")))) = []
  /\ resp (handle Sample.compare Sample.server (Sample.at_ 1000 Sample.t1)
             (Sample.operator (PostPosts (Some "") (Some "body"))))
     = jsonError 400 "Title and content are required".
Proof.
  destruct (empty_title_or_content_is_rejected_first Sample.compare
              Sample.server (Sample.at_ 1000 Sample.t1)
              (Sample.operator (PostPosts (Some "") (Some "body")))
              (Some "") (Some "body") eq_refl (or_introl eq_refl))
    as (Hlog & _ & Hresp).
  split; [exact Hlog|]. apply Hresp; reflexivity.
Defined.

Lemma created_post_has_one_slug_and_one_date_witness :
  exists t c d,
    let row := {| p_id := 1; p_title := t; p_content := c;
                  p_date := d; p_slug := "hello-world-" |} in
    let lf := String (ascii_of_N 10) EmptyString in
    let dq := String (ascii_of_N 34) EmptyString in
    let file :=
      "---" +:+ lf +:+
      "title: " +:+ dq +:+ p_title row +:+ dq +:+ lf +:+
      "date: " +:+ p_date row +:+ lf +:+
      "draft: false" +:+ lf +:+
      "---" +:+ lf +:+
      lf +:+
      p_content row in
    let path := "content/posts/" +:+ p_slug row +:+ ".md" in
    Sample.hello = PostPosts (Some t) (Some c)
    /\ "hello-world-" = slug t /\ d = Sample.t1
    /\ resp (handle Sample.compare Sample.server (Sample.at_ 1000 Sample.t1)
               (Sample.operator Sample.hello)) = created 1 "hello-world-"
    /\ posts (next (handle Sample.compare Sample.server
                      (Sample.at_ 1000 Sample.t1)
                      (Sample.operator Sample.hello))) = [] ++ [row]
    /\ log (handle Sample.compare Sample.server (Sample.at_ 1000 Sample.t1)
              (Sample.operator Sample.hello)) =
         [ DbRunInsert t c d "hello-world-" (inr 1); FsMkdir "content/posts";
           FsWriteFile path file ]
    /\ files (next (handle Sample.compare Sample.server
                      (Sample.at_ 1000 Sample.t1)
                      (Sample.operator Sample.hello))) !! path
       = Some file.
Proof.
  exact (created_post_has_one_slug_and_one_date Sample.compare Sample.server
           (Sample.at_ 1000 Sample.t1) (Sample.operator Sample.hello)
           1 "hello-world-" eq_refl).
Defined.

Lemma row_survives_failed_file_write_witness :
  resp (handle Sample.compare Sample.server (Sample.failingWrite 1000 Sample.t1)
          (Sample.operator Sample.hello))
    = jsonError 500 "Error creating post file"
  /\ In {| p_id := 1; p_title := "Hello, World!"; p_content := "body";
           p_date := Sample.t1; p_slug := "hello-world-" |}
        (posts (after Sample.compare Sample.afterFailedWrite
                  [(Sample.at_ 2000 Sample.t2, Sample.operator Sample.second)]))
  /\ In {| s_id := 1; s_title := "Hello, World!"; s_date := Sample.t1;
           s_slug := "hello-world-" |}
        [ {| s_id := 2; s_title := "Second post"; s_date := Sample.t2;
             s_slug := "second-post" |};
          {| s_id := 1; s_title := "Hello, World!"; s_date := Sample.t1;
             s_slug := "hello-world-" |} ].
Proof.
  destruct (row_survives_failed_file_write Sample.compare Sample.server
              (Sample.failingWrite 1000 Sample.t1)
              (Sample.operator Sample.hello)
              "Hello, World!" "body" Sample.t1 "hello-world-" 1
              [(Sample.at_ 2000 Sample.t2, Sample.operator Sample.second)]
              (Sample.at_ 3000 Sample.t3) (Sample.operator GetPosts)
              [ {| s_id := 2; s_title := "Second post"; s_date := Sample.t2;
                   s_slug := "second-post" |};
                {| s_id := 1; s_title := "Hello, World!"; s_date := Sample.t1;
                   s_slug := "hello-world-" |} ])
    as (Hresp & _ & Hrow & Hlisted).
  - left. reflexivity.
  - discriminate.
  - vm_compute. reflexivity.
  - split; [exact Hresp|]. split; [exact Hrow|exact Hlisted].
Defined.

Lemma second_post_with_same_slug_is_refused_witness :
  slug "Hello World?" = slug "Hello, World!"
  /\ posts (next (handle Sample.compare Sample.afterHello
                    (Sample.at_ 2000 Sample.t2)
                    (Sample.operator Sample.helloAgain)))
     = posts Sample.afterHello
  /\ files (next (handle Sample.compare Sample.afterHello
                    (Sample.at_ 2000 Sample.t2)
                    (Sample.operator Sample.helloAgain)))
       !! Hugo.filePath "hello-world-"
     = files Sample.afterHello !! Hugo.filePath "hello-world-"
  /\ log (handle Sample.compare Sample.afterHello (Sample.at_ 2000 Sample.t2)
            (Sample.operator Sample.helloAgain))
     = [ DbRunInsert "Hello World?" "again" Sample.t2 "hello-world-"
                     (inl Db.SQLITE_CONSTRAINT) ]
  /\ resp (handle Sample.compare Sample.afterHello (Sample.at_ 2000 Sample.t2)
             (Sample.operator Sample.helloAgain))
     = jsonError 500 "Database error".
Proof.
  destruct (second_post_with_same_slug_is_refused Sample.compare Sample.server
              (Sample.at_ 1000 Sample.t1) (Sample.operator Sample.hello)
              1 "hello-world-" []
              (Sample.at_ 2000 Sample.t2) (Sample.operator Sample.helloAgain)
              (Some "Hello World?") (Some "again")
              eq_refl eq_refl eq_refl)
    as (Hposts & _ & _ & Hfile & _ & _ & Hrefused).
  destruct Hrefused as [Hlog Hresp]; try reflexivity.
  split; [reflexivity|]. split; [exact Hposts|]. split; [exact Hfile|].
  split; [exact Hlog|exact Hresp].
Defined.


Lemma failed_login_answers_are_identical_witness :
  resp (handle Sample.compare Sample.server (Sample.at_ 1000 Sample.t1)
          (Sample.stranger (PostLogin (Some "root") (Some "s3cret"))))
  = resp (handle Sample.compare Sample.server (Sample.at_ 1000 Sample.t1)
            (Sample.stranger (PostLogin (Some "admin") (Some "guess")))).
Proof.
  exact (proj1 (failed_login_answers_are_identical Sample.compare
                  Sample.server (Sample.at_ 1000 Sample.t1)
                  (Sample.stranger (PostLogin (Some "root") (Some "s3cret")))
                  (Some "root") (Some "s3cret")
                  Sample.server (Sample.at_ 1000 Sample.t1)
                  (Sample.stranger (PostLogin (Some "admin") (Some "guess")))
                  (Some "admin") "guess" Sample.admin
                  eq_refl eq_refl eq_refl eq_refl eq_refl eq_refl eq_refl)).
Defined.



(** * Further properties of the code *)

(** ** More on the slug (server.js line 148) *)

Section SlugMore.

Lemma lowerUnit_slugChar c : isSlugChar c = true -> Js.lowerUnit c = c.
Proof.
  destruct c as [[] [] [] [] [] [] [] []]; vm_compute; intros H;
    first [reflexivity | discriminate H].
Qed.

Lemma toLowerCase_slugChars s :
  allChars isSlugChar s = true -> Js.toLowerCase s = s.
Proof.
  induction s as [|c r IH]; simpl; [reflexivity|].
  intros H. apply andb_prop in H as [Hc Hr].
  rewrite (lowerUnit_slugChar c Hc), (IH Hr). reflexivity.
Qed.

Lemma slugChar_not_alnum c :
  isSlugChar c = true -> Js.isAlnum c = false -> c = Js.hyphen.
Proof.
  unfold isSlugChar. intros H Hn. rewrite Hn in H. simpl in H.
  apply Ascii.eqb_eq, H.
Qed.

(** On a text of slug characters without two hyphens in a row the
    replacement changes nothing; inside a run this needs the text not to
    begin with a hyphen. *)
Lemma replaceRuns_fixed s :
  allChars isSlugChar s = true -> noDoubleHyphen s = true ->
  Js.replaceRuns false s = s
  /\ (startsWithHyphen s = false -> Js.replaceRuns true s = s).
Proof.
  induction s as [|c r IH]; [auto|].
  intros Hchars Hnd. simpl in Hchars. apply andb_prop in Hchars as [Hc Hr].
  assert (Hndr : noDoubleHyphen r = true).
  { simpl in Hnd. destruct r; [reflexivity|].
    apply andb_prop in Hnd as [_ H]. exact H. }
  destruct (IH Hr Hndr) as [IHf IHt].
  cbn [Js.replaceRuns]. destruct (Js.isAlnum c) eqn:Ha.
  - rewrite IHf. auto.
  - pose proof (slugChar_not_alnum c Hc Ha) as ->.
    assert (Hs : startsWithHyphen r = false).
    { simpl in Hnd. destruct r as [|d r']; [reflexivity|]. simpl.
      apply andb_prop in Hnd as [H _]. apply negb_true_iff in H.
      exact H. }
    split; [rewrite (IHt Hs); reflexivity|].
    simpl. discriminate.
Qed.

Lemma slug_of_slug_text s :
  allChars isSlugChar s = true -> noDoubleHyphen s = true -> slug s = s.
Proof.
  intros Hc Hn. unfold slug, Js.replaceNonAlnum.
  rewrite (toLowerCase_slugChars s Hc). apply replaceRuns_fixed; assumption.
Qed.

(** X1. Deriving the slug of a slug changes nothing, and the texts that
    are their own slug are exactly the texts made of lowercase letters,
    digits and hyphens without two hyphens in a row. *)
Theorem slug_idempotent_and_fixed_points t :
  slug (slug t) = slug t
  /\ (slug t = t <->
      allChars isSlugChar t = true /\ noDoubleHyphen t = true).
Proof.
  assert (Hc : allChars isSlugChar (slug t) = true) by apply replaceRuns_chars.
  assert (Hn : noDoubleHyphen (slug t) = true) by apply replaceRuns_hyphens.
  split; [apply slug_of_slug_text; assumption|]. split.
  - intros <-. auto.
  - intros [Hc' Hn']. apply slug_of_slug_text; assumption.
Qed.

Lemma toLowerCase_app a b :
  Js.toLowerCase (a +:+ b) = Js.toLowerCase a +:+ Js.toLowerCase b.
Proof.
  induction a as [|c a IH]; [reflexivity|].
  change (String (Js.lowerUnit c) (Js.toLowerCase (a +:+ b))
          = String (Js.lowerUnit c) (Js.toLowerCase a +:+ Js.toLowerCase b)).
  f_equal. exact IH.
Qed.

(** A non-empty run of characters outside the class, in front of [b]. *)
Lemma replaceRuns_run x b : forall flag,
  allChars (fun c => negb (Js.isAlnum c)) x = true -> x <> EmptyString ->
  Js.replaceRuns flag (x +:+ b)
  = if flag then Js.replaceRuns true b
    else String Js.hyphen (Js.replaceRuns true b).
Proof.
  induction x as [|c x IH]; intros flag Hx Hne; [congruence|].
  simpl in Hx. apply andb_prop in Hx as [Hc Hx]. apply negb_true_iff in Hc.
  change (String c x +:+ b) with (String c (x +:+ b)).
  cbn [Js.replaceRuns]. rewrite Hc.
  destruct x as [|d x'].
  - reflexivity.
  - rewrite (IH true Hx) by discriminate. reflexivity.
Qed.

Lemma replaceRuns_prefix a u v :
  (forall flag, Js.replaceRuns flag u = Js.replaceRuns flag v) ->
  forall flag, Js.replaceRuns flag (a +:+ u) = Js.replaceRuns flag (a +:+ v).
Proof.
  intros Huv. induction a as [|c a IH]; intros flag; [apply Huv|].
  change (String c a +:+ ?z) with (String c (a +:+ z)).
  cbn [Js.replaceRuns]. rewrite !IH. reflexivity.
Qed.

Lemma separator_lower x :
  isSeparator x = true ->
  allChars (fun c => negb (Js.isAlnum c)) (Js.toLowerCase x) = true.
Proof.
  unfold isSeparator. induction x as [|c x IH]; simpl; [reflexivity|].
  intros H. apply andb_prop in H as [-> Hx]. simpl. apply IH, Hx.
Qed.

Lemma toLowerCase_nonempty x : x <> EmptyString -> Js.toLowerCase x <> EmptyString.
Proof. destruct x; [congruence|discriminate]. Qed.

(** X2. The slug does not tell which characters separate the words of a
    title: a non-empty run of characters that lower-case outside
    [[a-z0-9]] can be exchanged for any other such run, anywhere in the
    title, without changing the slug. Titles that differ only in their
    punctuation collide. *)
Theorem slug_ignores_what_separates a x y b :
  isSeparator x = true -> x <> EmptyString ->
  isSeparator y = true -> y <> EmptyString ->
  slug (a +:+ x +:+ b) = slug (a +:+ y +:+ b).
Proof.
  intros Hx Hxne Hy Hyne. unfold slug, Js.replaceNonAlnum.
  rewrite !toLowerCase_app. apply replaceRuns_prefix. intros flag.
  rewrite !replaceRuns_run
    by (try apply separator_lower; try apply toLowerCase_nonempty; assumption).
  reflexivity.
Qed.

Lemma replaceRuns_length s : forall flag,
  (String.length (Js.replaceRuns flag s) <= String.length s)%nat.
Proof.
  induction s as [|c r IH]; intros flag; simpl; [lia|].
  destruct (Js.isAlnum c); [simpl; specialize (IH false); lia|].
  destruct flag; simpl; specialize (IH true); lia.
Qed.

(** X3. The replacement of the runs never lengthens a text, so that the
    slug is never longer than the lower-cased title; and the slug is
    empty only for the empty title: every title the create-post handler
    accepts has a slug, be it a lone hyphen. *)
Theorem slug_length_and_emptiness t :
  (forall x, (String.length (Js.replaceNonAlnum x) <= String.length x)%nat)
  /\ (String.length (slug t) <= String.length (Js.toLowerCase t))%nat
  /\ (slug t = EmptyString <-> t = EmptyString).
Proof.
  split; [intros x; apply replaceRuns_length|]. split.
  - unfold slug, Js.replaceNonAlnum. apply replaceRuns_length.
  - split; [|intros ->; reflexivity].
    destruct t as [|c r]; [reflexivity|].
    unfold slug, Js.replaceNonAlnum. simpl.
    destruct (Js.isAlnum (Js.lowerUnit c)); discriminate.
Qed.

End SlugMore.

Lemma slug_ignores_what_separates_witness :
  slug ("Hello" +:+ " " +:+ "World!") = slug ("Hello" +:+ ", " +:+ "World!").
Proof.
  apply (slug_ignores_what_separates "Hello" " " ", " "World!");
    first [reflexivity | discriminate].
Defined.

(** ** More on the application *)

Section ApplicationMore.

Variable bcrypt_compare : string -> string -> bool.

Local Abbreviation handle' := (handle bcrypt_compare).
Local Abbreviation dispatch' := (dispatch bcrypt_compare).
Local Abbreviation after' := (after bcrypt_compare).
Local Abbreviation run' := (run bcrypt_compare).

Lemma slug_empty t : slug t = EmptyString -> t = EmptyString.
Proof.
  destruct t as [|c r]; [reflexivity|].
  unfold slug, Js.replaceNonAlnum. simpl.
  destruct (Js.isAlnum (Js.lowerUnit c)); discriminate.
Qed.

(** X4. The server only ever writes files named
    [content/posts/<slug>.md], where the slug is a non-empty text of
    lowercase letters, digits and hyphens: whatever the title, no slash,
    dot or other character can take the write out of [content/posts]. The
    file written is the template filled with the title, the clock reading
    and the content of the request. *)
Theorem files_are_written_inside_content_posts s e r path data :
  In (FsWriteFile path data) (log (handle' s e r)) ->
  exists t c,
    target r = PostPosts (Some t) (Some c)
    /\ path = "content/posts/" +:+ slug t +:+ ".md"
    /\ allChars isSlugChar (slug t) = true
    /\ slug t <> EmptyString
    /\ data = Hugo.hugoContent t (isoNow e) c.
Proof.
  intros Hin.
  destruct (handle_cases bcrypt_compare s e r)
    as [(_ & _ & _ & Hno & _)|(t & c & H)].
  { apply Hno in Hin. discriminate. }
  cbv zeta in H.
  destruct H as (Ht & _ & _ & Htne & _ & _ & _ & _ & _ & _ & Hlog & _).
  rewrite Hlog in Hin. exists t, c.
  assert (Heq : FsWriteFile (Hugo.filePath (slug t))
                  (Hugo.hugoContent t (isoNow e) c) = FsWriteFile path data).
  { destruct Hin as [?|[?|Hin]]; try discriminate.
    destruct (fsResult e);
      [destruct Hin as [?|[]]; assumption | destruct Hin
      |destruct Hin as [?|[]]; assumption]. }
  injection Heq as <- <-.
  split; [exact Ht|]. split; [reflexivity|].
  split; [apply replaceRuns_chars|]. split; [|reflexivity].
  intros Hs. apply Htne, slug_empty, Hs.
Qed.

Lemma handle_users s e r : users (next (handle' s e r)) = users s.
Proof.
  destruct (handle_cases bcrypt_compare s e r) as [(H & _)|(t & c & H)];
    [exact H|].
  cbv zeta in H. apply H.
Qed.

(** X5. No request creates, changes or removes a user: after any sequence
    of requests the table of users is the one the server started with,
    and a lookup of a name gives what it gave. *)
Theorem users_never_change tr : forall s name,
  users (after' s tr) = users s
  /\ Db.getUser name (users (after' s tr)) = Db.getUser name (users s).
Proof.
  induction tr as [|[e r] tr IH]; intros s name; [auto|].
  simpl. destruct (IH (next (handle' s e r)) name) as [Hu Hg].
  rewrite Hg, Hu, handle_users. auto.
Qed.

Lemma slugTaken_In sl ps :
  Db.slugTaken sl ps = true <-> In sl (map p_slug ps).
Proof.
  unfold Db.slugTaken. rewrite existsb_exists, in_map_iff. split.
  - intros (p & Hp & Heq). apply String.eqb_eq in Heq. eauto.
  - intros (p & Heq & Hp). exists p. split; [exact Hp|].
    apply String.eqb_eq, Heq.
Qed.

Lemma nextId_fresh ps : ~ In (Db.nextId ps) (map p_id ps).
Proof.
  intros Hin. apply in_map_iff in Hin as (p & Heq & Hp).
  apply nextId_above in Hp. lia.
Qed.

Lemma NoDup_snoc {A} (l : list A) (x : A) :
  NoDup l -> ~ In x l -> NoDup (l ++ [x]).
Proof.
  intros Hl Hx. apply NoDup_app. split; [exact Hl|]. split.
  - intros y Hy Hin. rewrite list_elem_of_In in Hin. simpl in Hin.
    destruct Hin as [<-|[]]. apply Hx, list_elem_of_In, Hy.
  - apply NoDup_singleton.
Qed.

(** One request keeps the slugs and the ids of the table distinct. *)
Lemma handle_keys s e r :
  NoDup (map p_slug (posts s)) -> NoDup (map p_id (posts s)) ->
  NoDup (map p_slug (posts (next (handle' s e r))))
  /\ NoDup (map p_id (posts (next (handle' s e r)))).
Proof.
  intros Hs Hi.
  destruct (handle_cases bcrypt_compare s e r)
    as [(_ & -> & _)|(t & c & H)]; [auto|].
  cbv zeta in H.
  destruct H as (_ & _ & _ & _ & _ & _ & Hfree & _ & _ & -> & _).
  rewrite !map_app. simpl. split; apply NoDup_snoc; auto.
  - intros Hin. apply slugTaken_In in Hin. congruence.
  - apply nextId_fresh.
Qed.

(** X6. Slugs and ids stay unique: when no two rows of the table share a
    slug or an id, no sequence of requests makes two rows share one. *)
Theorem slugs_and_ids_stay_unique tr : forall s,
  uniqueKeys (posts s) -> uniqueKeys (posts (after' s tr)).
Proof.
  induction tr as [|[e r] tr IH]; intros s [Hs Hi]; [split; assumption|].
  simpl. apply IH. apply handle_keys; assumption.
Qed.

(** X7. Every row the server adds has a non-empty title and the slug of
    that title, which is not empty either: a table whose rows are so stays
    so through any sequence of requests. *)
Theorem rows_stay_well_formed tr : forall s,
  Forall rowOk (posts s) ->
  Forall (fun p => rowOk p /\ p_slug p <> EmptyString) (posts (after' s tr)).
Proof.
  intros s Hok.
  assert (Hall : Forall rowOk (posts (after' s tr))).
  2:{ eapply Forall_impl; [exact Hall|]. intros p [Ht Hs].
      split; [split; assumption|]. rewrite Hs. intros He.
      apply Ht, slug_empty, He. }
  revert s Hok.
  induction tr as [|[e r] tr IH]; intros s Hok; [exact Hok|].
  simpl. apply IH.
  destruct (handle_cases bcrypt_compare s e r)
    as [(_ & -> & _)|(t & c & H)]; [exact Hok|].
  cbv zeta in H.
  destruct H as (_ & _ & _ & Ht & Hc & _ & _ & _ & _ & -> & _).
  apply Forall_app. split; [exact Hok|].
  constructor; [|constructor]. repeat split; assumption.
Qed.

Lemma handle_posts_incl s e r p :
  In p (posts s) -> In p (posts (next (handle' s e r))).
Proof.
  intros Hp.
  destruct (handle_cases bcrypt_compare s e r)
    as [(_ & -> & _)|(t & c & H)]; [exact Hp|].
  cbv zeta in H.
  destruct H as (_ & _ & _ & _ & _ & _ & _ & _ & _ & -> & _).
  apply in_or_app. left. exact Hp.
Qed.

Lemma after_posts_incl tr : forall s p,
  In p (posts s) -> In p (posts (after' s tr)).
Proof.
  induction tr as [|[e r] tr IH]; intros s p Hp; [exact Hp|].
  simpl. apply IH, handle_posts_incl, Hp.
Qed.

(** What one request does to the file of path [p]. *)
Lemma handle_file s e r p :
  (is_Some (files s !! p) -> is_Some (files (next (handle' s e r)) !! p))
  /\ (files (next (handle' s e r)) !! p <> files s !! p ->
      exists row, In row (posts (next (handle' s e r)))
                  /\ ~ In row (posts s)
                  /\ p = Hugo.filePath (p_slug row)).
Proof.
  destruct (handle_cases bcrypt_compare s e r)
    as [(_ & _ & -> & _)|(t & c & H)]; [split; [auto|congruence]|].
  cbv zeta in H.
  destruct H as (_ & _ & _ & _ & _ & _ & Hfree & _ & _ & -> & _ & _ & ->).
  set (row := newRow (posts s) t c (isoNow e)).
  assert (Hnew : ~ In row (posts s)).
  { intros Hin. apply (in_map p_slug) in Hin. apply slugTaken_In in Hin.
    simpl in Hin. congruence. }
  assert (Hrow : forall q, q = Hugo.filePath (slug t) ->
            exists row0, In row0 (posts s ++ [row]) /\ ~ In row0 (posts s)
                         /\ q = Hugo.filePath (p_slug row0)).
  { intros q ->. exists row. split; [apply in_or_app; right; left; reflexivity|].
    split; [exact Hnew|reflexivity]. }
  destruct (fsResult e) as [| |[part|]];
    try (split; [auto|congruence]);
    (split;
     [intros Hsome;
      destruct (decide (Hugo.filePath (slug t) = p)) as [<-|Hne];
      [rewrite lookup_insert_eq; eauto
      |rewrite lookup_insert_ne by exact Hne; exact Hsome]
     |intros Hchg;
      destruct (decide (Hugo.filePath (slug t) = p)) as [<-|Hne];
      [apply Hrow; reflexivity
      |rewrite lookup_insert_ne in Hchg by exact Hne; congruence]]).
Qed.

(** X8. The server never removes a file, and it changes a file only for a
    row it adds: after any sequence of requests, a path that held a file
    still holds one, and a path whose file is not what it was is the
    content file of a row inserted by one of these requests. *)
Theorem files_change_only_for_new_rows tr : forall s p,
  (is_Some (files s !! p) -> is_Some (files (after' s tr) !! p))
  /\ (files (after' s tr) !! p <> files s !! p ->
      exists row, In row (posts (after' s tr))
                  /\ ~ In row (posts s)
                  /\ p = Hugo.filePath (p_slug row)).
Proof.
  induction tr as [|[e r] tr IH]; intros s p;
    [split; [auto|intros H; destruct (H eq_refl)]|].
  simpl. destruct (IH (next (handle' s e r)) p) as [IHkeep IHchg].
  destruct (handle_file s e r p) as [Hkeep Hchg].
  split; [auto|]. intros Hdiff.
  destruct (decide (files (next (handle' s e r)) !! p = files s !! p))
    as [Heq|Hne].
  - rewrite <- Heq in Hdiff.
    destruct (IHchg Hdiff) as (row & Hin & Hnot & Hp).
    exists row. split; [exact Hin|]. split; [|exact Hp].
    intros Hs. apply Hnot, handle_posts_incl, Hs.
  - destruct (Hchg Hne) as (row & Hin & Hnot & Hp).
    exists row. split; [apply after_posts_incl, Hin|]. auto.
Qed.

(** X9. Once a post is in the table no request writes its content file
    any more: the file of its slug stays what the creating request left
    (nothing, or a part, when its write failed), and a new create-post
    request with the same title is never answered with a created post. *)
Theorem content_file_is_written_at_creation_or_never
    s e r t c d sl id tr e2 r2 c2 id2 sl2 :
  In (DbRunInsert t c d sl (inr id)) (log (handle' s e r)) ->
  target r2 = PostPosts (Some t) c2 ->
  files (after' (next (handle' s e r)) tr) !! Hugo.filePath sl
    = files (next (handle' s e r)) !! Hugo.filePath sl
  /\ body (resp (handle' (after' (next (handle' s e r)) tr) e2 r2))
     <> JsonCreated id2 sl2.
Proof.
  intros Hins Ht2.
  destruct (insert_logged bcrypt_compare s e r t c d sl id Hins)
    as (_ & _ & Hsl & _ & Hp).
  assert (Htaken : Db.slugTaken sl (posts (next (handle' s e r))) = true).
  { rewrite Hp, slugTaken_app. simpl. rewrite Hsl, String.eqb_refl.
    rewrite orb_true_r. reflexivity. }
  destruct (after_keeps_slug bcrypt_compare tr sl _ Htaken) as [Htaken' Hfile].
  split; [exact Hfile|].
  destruct (handle_cases bcrypt_compare (after' (next (handle' s e r)) tr) e2 r2)
    as [(_ & _ & _ & _ & Hno)|(t0 & c0 & H)]; [apply Hno|].
  cbv zeta in H. destruct H as (Ht & _ & _ & _ & _ & _ & Hfree & _).
  rewrite Ht2 in Ht. injection Ht as -> _. congruence.
Qed.

(** X10. The posts and the files are changed by the creation of a post
    only, and the users by nothing: a request for any other route (the
    login page, the login, the logout, the dashboard, the listing), a
    create-post request without title or content, and a request whose
    body the parsers refuse leave the users, the posts and the files as
    they were. *)
Theorem only_create_post_changes_posts_and_files s e r :
  users (next (handle' s e r)) = users s
  /\ match target r with
     | PostPosts (Some _) (Some _) => True
     | _ => sameData s (next (handle' s e r))
     end.
Proof.
  split; [apply handle_users|].
  destruct (handle_cases bcrypt_compare s e r)
    as [(Hu & Hp & Hf & _)|(t & c & H)].
  - assert (Hsame : sameData s (next (handle' s e r)))
      by (repeat split; symmetry; assumption).
    destruct (target r) as [| | | | |[?|] [?|]|]; auto.
  - cbv zeta in H. destruct H as (-> & _). exact I.
Qed.

Lemma textLe_antisym a b : textLe a b -> textLe b a -> a = b.
Proof. apply String.leb_antisym. Qed.

(** X19. A post created at a clock reading later than every date of the
    table comes first in the listing served next. *)
Theorem newest_post_heads_the_listing s e r t c d sl id e' r' rows :
  In (DbRunInsert t c d sl (inr id)) (log (handle' s e r)) ->
  Forall (fun p => textLt (p_date p) d) (posts s) ->
  body (resp (handle' (next (handle' s e r)) e' r')) = JsonPosts rows ->
  exists rest,
    rows = {| s_id := id; s_title := t; s_date := d; s_slug := sl |} :: rest.
Proof.
  intros Hins Hold Hlist.
  destruct (insert_logged bcrypt_compare s e r t c d sl id Hins)
    as (_ & Hd & Hsl & Hid & Hp).
  rewrite (listing_inv bcrypt_compare _ _ _ _ Hlist), Hp.
  set (row := newRow (posts s) t c d).
  assert (Hentry : summarize row
            = {| s_id := id; s_title := t; s_date := d; s_slug := sl |}).
  { unfold row, newRow, summarize. simpl. rewrite <- Hid, <- Hsl. reflexivity. }
  rewrite <- Hentry.
  pose proof (selectPosts_perm (posts s ++ [row])) as Hperm.
  pose proof (selectPosts_sorted (posts s ++ [row])) as Hsorted.
  assert (Hrow : In (summarize row) (Db.selectPosts (posts s ++ [row]))).
  { apply (Permutation_in _ (Permutation_sym Hperm)), in_map.
    apply in_or_app. right. left. reflexivity. }
  destruct (Db.selectPosts (posts s ++ [row])) as [|h rest] eqn:Hrows;
    [destruct Hrow|].
  exists rest. f_equal.
  assert (Hh : In h (map summarize (posts s ++ [row]))).
  { apply (Permutation_in _ Hperm). left. reflexivity. }
  apply in_map_iff in Hh as (p & <- & Hpin).
  apply in_app_or in Hpin as [Hpold|[<-|[]]]; [|reflexivity].
  exfalso.
  rewrite Forall_forall in Hold.
  destruct (Hold p (proj2 (list_elem_of_In _ _) Hpold)) as [Hle Hne].
  destruct Hrow as [Heq|Hin].
  - apply Hne. apply (f_equal s_date) in Heq. exact Heq.
  - apply StronglySorted_inv in Hsorted as [_ Hall].
    rewrite Forall_forall in Hall.
    specialize (Hall _ (proj2 (list_elem_of_In _ _) Hin)).
    unfold newestFirst in Hall. simpl in Hall.
    apply Hne, textLe_antisym; assumption.
Qed.

(** ** Sessions: login and logout (server.js lines 98-124) *)

Lemma load_some ss ck t c se :
  Session.load ss ck t = Some (c, se) ->
  ck = Some c /\ ss !! c = Some se /\ t < expires se.
Proof.
  unfold Session.load. destruct ck as [c0|]; [|discriminate].
  destruct (ss !! c0) as [se0|] eqn:Hse; [|discriminate].
  destruct (t <? expires se0) eqn:Hlive; [|discriminate].
  intros H. injection H as <- <-. apply Z.ltb_lt in Hlive. auto.
Qed.

(** What one request does to the sessions: nothing; or it is a successful
    login that stores the id of a user under a session identifier, the one
    of the live session of its cookie or else a new one; or it is a logout
    that removes the session of its cookie. *)
Lemma handle_sessions s e r :
  (sessions (next (handle' s e r)) = sessions s
   /\ setCookie (resp (handle' s e r)) = None)
  \/ (exists u sid,
        In u (users s)
        /\ sid = match Session.load (sessions s) (cookie r) (now e) with
                 | Some (c, _) => c
                 | None => newSid e
                 end
        /\ sessions (next (handle' s e r))
           = <[sid := {| userId := u_id u;
                         expires := now e + Session.maxAge |}]> (sessions s)
        /\ (setCookie (resp (handle' s e r)) = Some sid
            \/ setCookie (resp (handle' s e r)) = None)
        /\ body (resp (handle' s e r)) = Redirect "/cms/dashboard")
  \/ (exists sid,
        target r = GetLogout /\ cookie r = Some sid
        /\ sessions (next (handle' s e r)) = delete sid (sessions s)
        /\ setCookie (resp (handle' s e r)) = None).
Proof.
  destruct (handle_split bcrypt_compare s e r)
    as (s1 & (Hu & Hp & Hf & Hs) & ->).
  destruct (admitted s e r); [|left; simpl; auto].
  unfold dispatch.
  destruct (target r) as [|un pw| | | |title content|to] eqn:Ht;
    [| | | | | |left; simpl; auto].
  - left. simpl. auto.
  - unfold postLogin. rewrite <- Hu, <- Hs.
    destruct (dbFault e); [left; simpl; auto|].
    destruct (Db.getUser un (users s)) as [u|] eqn:Hget; [|left; simpl; auto].
    destruct pw as [pw|]; [|left; simpl; auto].
    destruct (bcrypt_compare pw (u_password u)); [|left; simpl; auto].
    right. left.
    assert (Hin : In u (users s)).
    { destruct un as [n|]; [|discriminate]. simpl in Hget.
      apply find_some in Hget as [Hin _]. exact Hin. }
    exists u. eexists. split; [exact Hin|]. simpl.
    split; [reflexivity|]. split; [reflexivity|].
    split; [|reflexivity].
    destruct (secureCookie s1); [auto|].
    destruct (Session.load (sessions s) (cookie r) (now e)) as [[sid se]|];
      [destruct (negb (userId se =? u_id u))|]; auto.
  - unfold getLogout. rewrite <- Hs.
    destruct (Session.load (sessions s) (cookie r) (now e)) as [[sid se]|] eqn:Hl;
      [|left; simpl; auto].
    right. right. exists sid. split; [reflexivity|].
    split; [|simpl; auto].
    apply load_some in Hl as (Hc & _). exact Hc.
  - left. unfold requireAuth.
    destruct (Session.authenticated _ _ _); simpl; auto.
  - left. unfold requireAuth, getPosts.
    destruct (Session.authenticated _ _ _); [destruct (dbFault e)|]; simpl; auto.
  - left. unfold requireAuth, postPosts.
    repeat match goal with
           | |- context [match ?x with _ => _ end] => destruct x
           end; simpl; auto.
Qed.

Lemma after_users tr : forall s, users (after' s tr) = users s.
Proof.
  induction tr as [|[e r] tr IH]; intros s; [reflexivity|].
  simpl. rewrite IH. apply handle_users.
Qed.




(** The session of identifier [sid] is ended at time [t0]: there is none,
    or its expiry is not after [t0]. It stays so through a request that
    does not come before [t0] and for which the identifier generated for
    a new session is another one. *)
Lemma session_stays_ended s e r sid t0 :
  ended (sessions s) sid t0 ->
  t0 <= now e -> newSid e <> sid ->
  ended (sessions (next (handle' s e r))) sid t0.
Proof.
  intros Hend Ht Hnew. unfold ended in *.
  destruct (handle_sessions s e r)
    as [[-> _]|[(u & sid' & _ & Hsid & -> & _)|(sid' & _ & _ & -> & _)]].
  - exact Hend.
  - assert (Hne : sid' <> sid).
    { destruct (Session.load (sessions s) (cookie r) (now e))
        as [[c se]|] eqn:Hl; [|congruence].
      apply load_some in Hl as (_ & Hc & Hlive). subst sid'.
      intros ->. rewrite Hc in Hend. lia. }
    rewrite lookup_insert_ne by exact Hne. exact Hend.
  - destruct (decide (sid' = sid)) as [->|Hne].
    + rewrite lookup_delete_eq. exact I.
    + rewrite lookup_delete_ne by exact Hne. exact Hend.
Qed.

Lemma session_ended_after tr : forall s sid t0,
  ended (sessions s) sid t0 ->
  Forall (fun er => t0 <= now (fst er) /\ newSid (fst er) <> sid) tr ->
  ended (sessions (after' s tr)) sid t0.
Proof.
  induction tr as [|[e r] tr IH]; intros s sid t0 Hend Hall; [exact Hend|].
  apply Forall_cons in Hall as [[Ht Hnew] Hall]. simpl in Ht, Hnew.
  simpl. apply IH; [|exact Hall]. apply session_stays_ended; assumption.
Qed.

Lemma ended_unauthenticated ss sid t0 t :
  ended ss sid t0 -> t0 <= t ->
  Session.authenticated ss (Some sid) t = false.
Proof.
  unfold ended, Session.authenticated, Session.load. intros Hend Ht.
  destruct (ss !! sid) as [se|]; [|reflexivity].
  assert (Hdead : (t <? expires se) = false) by (apply Z.ltb_ge; lia).
  rewrite Hdead. reflexivity.
Qed.

(** X12. A logout that passes the rate limiter redirects to the login
    page and ends the session of its cookie, and no other: every other
    session is what it was, and from then on, whatever requests follow, a
    request for a privileged route that presents this cookie is sent to
    the login page. (The clock does not go back before the logout, and
    the identifiers generated for new sessions differ from this one.) *)
Theorem logout_ends_the_session_of_its_cookie s e r sid tr e' r' :
  target r = GetLogout ->
  cookie r = Some sid ->
  admitted s e r = true ->
  Forall (fun er => now e <= now (fst er) /\ newSid (fst er) <> sid) tr ->
  cookie r' = Some sid ->
  privileged (target r') = true ->
  admitted (after' (next (handle' s e r)) tr) e' r' = true ->
  now e <= now e' ->
  resp (handle' s e r) = toLogin
  /\ ended (sessions (next (handle' s e r))) sid (now e)
  /\ (forall other, other <> sid ->
        sessions (next (handle' s e r)) !! other = sessions s !! other)
  /\ resp (handle' (after' (next (handle' s e r)) tr) e' r') = toLogin.
Proof.
  intros Ht Hc Hadm Htr Hc' Hpriv Hadm' Hnow.
  assert (Hout : resp (handle' s e r) = toLogin
                 /\ ended (sessions (next (handle' s e r))) sid (now e)
                 /\ (forall other, other <> sid ->
                       sessions (next (handle' s e r)) !! other
                       = sessions s !! other)).
  { destruct (handle_split bcrypt_compare s e r)
      as (s1 & (_ & _ & _ & Hs1) & ->).
    rewrite Hadm. unfold dispatch, getLogout, ended. rewrite Ht, <- Hs1.
    unfold Session.load. rewrite Hc.
    destruct (sessions s !! sid) as [se|] eqn:Hse.
    - destruct (now e <? expires se) eqn:Hlive; simpl.
      + split; [reflexivity|]. split.
        * rewrite lookup_delete_eq. exact I.
        * intros other Hne. apply lookup_delete_ne. congruence.
      + split; [reflexivity|]. rewrite <- Hs1, Hse.
        apply Z.ltb_ge in Hlive. split; [lia|reflexivity].
    - simpl. split; [reflexivity|]. rewrite <- Hs1, Hse.
      split; [exact I|reflexivity]. }
  destruct Hout as (Hresp & Hend & Hothers).
  split; [exact Hresp|]. split; [exact Hend|]. split; [exact Hothers|].
  pose proof (session_ended_after tr _ sid (now e) Hend Htr) as Hend'.
  destruct (handle_split bcrypt_compare (after' (next (handle' s e r)) tr) e' r')
    as (s2 & (_ & _ & _ & Hs2) & ->).
  rewrite Hadm'.
  rewrite (dispatch_guarded bcrypt_compare); [reflexivity|exact Hpriv|].
  rewrite <- Hs2, Hc'. apply (ended_unauthenticated _ _ (now e)); assumption.
Qed.

(** X18. The first start and the first login. On a database without
    users the server, started with both secrets set, creates the
    administrator with the hash of the configured password; when it is
    not started for production, a login
    as [admin] with a password that bcrypt accepts for this hash is then
    let through by both rate limiters, redirects to the dashboard, hands
    out the cookie of a new session and stores the id 1 of the
    administrator under it for 24 hours. *)
Theorem bootstrap_admin_can_log_in penv pw h ps fs e r :
  Startup.validate penv = None ->
  Startup.cookieSecure penv = false ->
  bcrypt_compare pw h = true ->
  target r = PostLogin (Some "admin") (Some pw) ->
  dbFault e = false ->
  resp (handle' (Startup.start penv (Some h) [] ps fs) e r)
    = {| status := 302; body := Redirect "/cms/dashboard";
         setCookie := Some (newSid e) |}
  /\ sessions (next (handle' (Startup.start penv (Some h) [] ps fs) e r))
       !! newSid e
     = Some {| userId := 1; expires := now e + Session.maxAge |}.
Proof.
  intros _ Hsec Hpw Ht Hdb.
  unfold handle, Startup.start, Limiter.consume. simpl.
  rewrite !lookup_empty. simpl. rewrite Ht. simpl.
  unfold dispatch, postLogin. simpl. rewrite Ht, Hdb, Hsec. simpl. rewrite Hpw.
  unfold Session.load. destruct (cookie r); simpl; rewrite ?lookup_empty;
    simpl; rewrite lookup_insert_eq; auto.
Qed.

(** ** The rate limiters (server.js lines 33-44) *)

Lemma dispatch_general e r s :
  generalHits (next (dispatch' e r s)) = generalHits s.
Proof.
  unfold dispatch, requireAuth, postLogin, getLogout, getPosts, postPosts.
  repeat match goal with
         | |- context [match ?x with _ => _ end] => destruct x
         end; reflexivity.
Qed.

(** The counters after one request: the general limiter counts every
    request of the client, the login limiter counts those under
    [/cms/login] that the general limiter lets through. *)
Lemma handle_tables s e r :
  generalHits (next (handle' s e r))
  = <[ip r := Limiter.count Limiter.generalWindowMs (now e)
                (generalHits s !! ip r)]> (generalHits s)
  /\ loginHits (next (handle' s e r))
     = (if Nat.leb (hits (Limiter.count Limiter.generalWindowMs (now e)
                            (generalHits s !! ip r))) Limiter.generalMax
           && underLogin (target r)
        then <[ip r := Limiter.count Limiter.loginWindowMs (now e)
                         (loginHits s !! ip r)]> (loginHits s)
        else loginHits s).
Proof.
  unfold handle, Limiter.consume. cbn [loginHits setGeneralHits].
  destruct (Nat.leb _ Limiter.generalMax); cbn [negb andb];
    [|simpl; auto].
  destruct (underLogin (target r)).
  - destruct (negb _); [simpl; auto|].
    rewrite dispatch_general, dispatch_limiters. simpl. auto.
  - rewrite dispatch_general, dispatch_limiters. simpl. auto.
Qed.

(** A request that is served has passed the rate limiters. *)
Lemma served_admitted s e r :
  served (handle' s e r) = true -> admitted s e r = true.
Proof.
  destruct (handle_split bcrypt_compare s e r) as (s1 & _ & ->).
  destruct (admitted s e r); [reflexivity|]. intros H. discriminate H.
Qed.

Lemma turned_away s e r :
  admitted s e r = false ->
  resp (handle' s e r) = rateLimited
  /\ log (handle' s e r) = []
  /\ sameStores s (next (handle' s e r)).
Proof.
  intros Hadm.
  destruct (handle_split bcrypt_compare s e r) as (s1 & Hsame & ->).
  rewrite Hadm. simpl. auto.
Qed.

(** Two states in which the client has the same counters. *)
Local Abbreviation sameCounters client a b :=
  (generalHits a !! client = generalHits b !! client
   /\ loginHits a !! client = loginHits b !! client).

Lemma counters_other s e r client :
  ip r <> client -> sameCounters client (next (handle' s e r)) s.
Proof.
  intros Hne. destruct (handle_tables s e r) as [-> ->].
  split; [apply lookup_insert_ne, Hne|].
  destruct (_ && _); [apply lookup_insert_ne, Hne|reflexivity].
Qed.

Lemma counters_own a b e r :
  sameCounters (ip r) a b ->
  sameCounters (ip r) (next (handle' a e r)) (next (handle' b e r)).
Proof.
  intros [Hg Hl].
  destruct (handle_tables a e r) as [-> ->].
  destruct (handle_tables b e r) as [-> ->].
  rewrite Hg, Hl. split; [rewrite !lookup_insert_eq; reflexivity|].
  destruct (_ && _); [rewrite !lookup_insert_eq; reflexivity|exact Hl].
Qed.

Lemma counters_after client tr : forall a b,
  sameCounters client a b ->
  sameCounters client (after' a tr)
    (after' b (List.filter (fromClient client) tr)).
Proof.
  induction tr as [|[e r] tr IH]; intros a b Hab; [exact Hab|].
  simpl. destruct (fromClient client (e, r)) eqn:Hfc;
    unfold fromClient in Hfc; simpl in Hfc.
  - apply String.eqb_eq in Hfc. simpl. apply IH. subst client.
    apply counters_own, Hab.
  - apply String.eqb_neq in Hfc. apply IH.
    destruct (counters_other a e r client Hfc) as [Hg Hl].
    destruct Hab as [Hg' Hl']. split; congruence.
Qed.

(** X13. Whether a request is rate limited depends on the earlier
    requests of its own client only: taking the requests of all other
    clients out of the history does not change the verdict of the two
    limiters. *)
Theorem rate_limit_is_per_client s tr e r :
  admitted (after' s tr) e r
  = admitted (after' s (List.filter (fromClient (ip r)) tr)) e r.
Proof.
  destruct (counters_after (ip r) tr s s) as [Hg Hl]; [auto|].
  unfold admitted, Limiter.consume. cbn [fst]. rewrite Hg, Hl. reflexivity.
Qed.

(** Counting a request of [key] within the quarter of an hour. *)
Lemma quarter_count table client T n key t :
  T <= t < T + 15 * 60 * 1000 ->
  countedInQuarter table client T n ->
  countedInQuarter
    (<[key := Limiter.count Limiter.generalWindowMs t (table !! key)]> table)
    client T (n + (if String.eqb key client then 1 else 0)).
Proof.
  intros Ht Hc. destruct (String.eqb_spec key client) as [->|Hne].
  - left. destruct Hc as [(w & Hw & Hr & Hn)|[-> Hc]].
    + rewrite Hw. unfold Limiter.count.
      assert (Hlive : (t <? resetTime w) = true) by (apply Z.ltb_lt; lia).
      rewrite Hlive. eexists. rewrite lookup_insert_eq.
      split; [reflexivity|]. simpl. split; [exact Hr|lia].
    + unfold windowClosed in Hc. unfold Limiter.count.
      destruct (table !! client) as [w|] eqn:Hw.
      * apply Z.leb_le in Hc.
        assert (Hdead : (t <? resetTime w) = false) by (apply Z.ltb_ge; lia).
        rewrite Hdead. eexists. rewrite lookup_insert_eq.
        split; [reflexivity|]. simpl. unfold Limiter.generalWindowMs. lia.
      * eexists. rewrite lookup_insert_eq.
        split; [reflexivity|]. simpl. unfold Limiter.generalWindowMs. lia.
  - rewrite Nat.add_0_r. unfold countedInQuarter, windowClosed.
    rewrite lookup_insert_ne by exact Hne. exact Hc.
Qed.

Lemma quarter_mono table client T n m :
  countedInQuarter table client T n -> (m <= n)%nat ->
  countedInQuarter table client T m.
Proof.
  intros [(w & Hw & Hr & Hn)|[-> Hc]] Hm.
  - left. exists w. repeat split; auto. lia.
  - right. split; [lia|exact Hc].
Qed.

Lemma quarter_after client T tr : forall s n,
  withinQuarter T tr ->
  countedInQuarter (generalHits s) client T n ->
  countedInQuarter (generalHits (after' s tr)) client T
    (n + servedRequests bcrypt_compare client s tr).
Proof.
  induction tr as [|[e r] tr IH]; intros s n Hin Hc.
  - simpl. rewrite Nat.add_0_r. exact Hc.
  - apply Forall_cons in Hin as [Ht Hin]. simpl in Ht.
    simpl. rewrite Nat.add_assoc. apply IH; [exact Hin|].
    destruct (handle_tables s e r) as [-> _].
    apply (quarter_mono _ _ _
             (n + (if String.eqb (ip r) client then 1 else 0))).
    + apply quarter_count; assumption.
    + destruct (String.eqb (ip r) client), (served (handle' s e r));
        simpl; lia.
Qed.

Lemma quarter_full s client T e r :
  countedInQuarter (generalHits s) client T 100 ->
  ip r = client ->
  T <= now e < T + 15 * 60 * 1000 ->
  admitted s e r = false.
Proof.
  intros [(w & Hw & Hr & Hn)|[Hz _]] Hip Hnow; [|discriminate].
  unfold admitted, Limiter.consume. cbn [fst].
  rewrite Hip, Hw. unfold Limiter.count.
  assert (Hlive : (now e <? resetTime w) = true) by (apply Z.ltb_lt; lia).
  rewrite Hlive. cbn [hits].
  assert (Hover : Nat.leb (S (hits w)) Limiter.generalMax = false).
  { apply Nat.leb_gt. unfold Limiter.generalMax. lia. }
  rewrite Hover. reflexivity.
Qed.

Lemma servedRequests_snoc client tr : forall s e r,
  servedRequests bcrypt_compare client s (tr ++ [(e, r)])
  = (servedRequests bcrypt_compare client s tr
     + (if String.eqb (ip r) client && served (handle' (after' s tr) e r)
        then 1 else 0))%nat.
Proof.
  induction tr as [|[e0 r0] tr IH]; intros s e r; simpl.
  - lia.
  - rewrite IH. lia.
Qed.

(** X15. The general limiter: in a quarter of an hour that starts with
    the general window of a client not open, at most 100 requests of the
    client are served, whatever their routes; once 100 have been, every
    further request of the client in that quarter is answered 429, makes
    no call and touches no user, session, post or file. *)
Theorem hundred_requests_per_quarter_hour s client T tr :
  windowClosed (generalHits s) client T = true ->
  withinQuarter T tr ->
  (servedRequests bcrypt_compare client s tr <= 100)%nat
  /\ forall e r,
       (100 <= servedRequests bcrypt_compare client s tr)%nat ->
       ip r = client ->
       T <= now e < T + 15 * 60 * 1000 ->
       resp (handle' (after' s tr) e r) = rateLimited
       /\ log (handle' (after' s tr) e r) = []
       /\ sameStores (after' s tr) (next (handle' (after' s tr) e r)).
Proof.
  intros Hclosed Hin.
  assert (Hfull : forall tr0, withinQuarter T tr0 ->
            (100 <= servedRequests bcrypt_compare client s tr0)%nat ->
            countedInQuarter (generalHits (after' s tr0)) client T 100).
  { intros tr0 Hin0 Hle.
    apply (quarter_mono _ _ _
             (0 + servedRequests bcrypt_compare client s tr0)); [|lia].
    apply quarter_after; [exact Hin0|]. right. auto. }
  split.
  - clear Hfull. induction tr as [|[e r] tr IH] using rev_ind; [simpl; lia|].
    apply Forall_app in Hin as [Hin Hlast].
    apply Forall_cons in Hlast as [Hnow _]. simpl in Hnow.
    specialize (IH Hin). rewrite servedRequests_snoc.
    destruct (String.eqb_spec (ip r) client) as [Hip|]; [|simpl; lia].
    destruct (Nat.eq_dec (servedRequests bcrypt_compare client s tr) 100%nat)
      as [Hfull|]; [|destruct (_ && _); lia].
    assert (Hc : countedInQuarter (generalHits (after' s tr)) client T 100).
    { apply (quarter_mono _ _ _
               (0 + servedRequests bcrypt_compare client s tr)); [|lia].
      apply quarter_after; [exact Hin|]. right. auto. }
    pose proof (quarter_full _ client T e r Hc Hip Hnow) as Hadm.
    destruct (served (handle' (after' s tr) e r)) eqn:Hs; [|simpl; lia].
    apply served_admitted in Hs. congruence.
  - intros e r Hle Hip Hnow. apply turned_away.
    apply (quarter_full _ client T); auto.
Qed.

Lemma hour_step s client T n e r :
  T <= now e < T + 60 * 60 * 1000 ->
  countedInHour (loginHits s) client T n ->
  countedInHour (loginHits (next (handle' s e r))) client T
    (n + (if String.eqb (ip r) client && underLogin (target r)
             && served (handle' s e r)
          then 1 else 0)).
Proof.
  intros Ht Hc. destruct (handle_tables s e r) as [_ ->].
  destruct (Nat.leb _ Limiter.generalMax && underLogin (target r)) eqn:Hcount.
  - apply (counted_mono _ _ _ (n + (if String.eqb (ip r) client then 1 else 0))).
    + apply counted_count; assumption.
    + destruct (String.eqb (ip r) client), (underLogin (target r)),
        (served (handle' s e r)); simpl; lia.
  - destruct (served (handle' s e r)) eqn:Hs;
      [|rewrite andb_false_r, Nat.add_0_r; exact Hc].
    apply served_admitted in Hs. unfold admitted, Limiter.consume in Hs.
    cbn [fst] in Hs. apply andb_prop in Hs as [Hg _]. rewrite Hg in Hcount.
    simpl in Hcount. rewrite Hcount, andb_false_r. simpl.
    rewrite Nat.add_0_r. exact Hc.
Qed.

Lemma hour_after client T tr : forall s n,
  withinHour T tr ->
  countedInHour (loginHits s) client T n ->
  countedInHour (loginHits (after' s tr)) client T
    (n + servedLoginPath bcrypt_compare client s tr).
Proof.
  induction tr as [|[e r] tr IH]; intros s n Hin Hc.
  - simpl. rewrite Nat.add_0_r. exact Hc.
  - apply Forall_cons in Hin as [Ht Hin]. simpl in Ht.
    simpl. rewrite Nat.add_assoc. apply IH; [exact Hin|].
    apply hour_step; assumption.
Qed.

Lemma hour_full s client T e r :
  countedInHour (loginHits s) client T 5 ->
  ip r = client ->
  underLogin (target r) = true ->
  T <= now e < T + 60 * 60 * 1000 ->
  admitted s e r = false.
Proof.
  intros [(w & Hw & Hr & Hn)|[Hz _]] Hip Hunder Hnow; [|discriminate].
  unfold admitted, Limiter.consume. cbn [fst].
  rewrite Hunder, Hip, Hw. unfold Limiter.count.
  assert (Hlive : (now e <? resetTime w) = true) by (apply Z.ltb_lt; lia).
  rewrite Hlive. cbn [hits].
  assert (Hover : Nat.leb (S (hits w)) Limiter.loginMax = false).
  { apply Nat.leb_gt. unfold Limiter.loginMax. lia. }
  rewrite Hover. apply andb_false_r.
Qed.

Lemma servedLoginPath_snoc client tr : forall s e r,
  servedLoginPath bcrypt_compare client s (tr ++ [(e, r)])
  = (servedLoginPath bcrypt_compare client s tr
     + (if String.eqb (ip r) client && underLogin (target r)
           && served (handle' (after' s tr) e r)
        then 1 else 0))%nat.
Proof.
  induction tr as [|[e0 r0] tr IH]; intros s e r; simpl.
  - lia.
  - rewrite IH. lia.
Qed.

(** X14. The login limiter is mounted on [/cms/login] for every method:
    the loads of the login page and the login attempts of a client share
    one budget of five per hour. In an hour that starts with the login
    window of the client not open, at most five of its requests under
    [/cms/login] are served; once five have been, loads of the page
    included, every further request of the client under [/cms/login] in
    that hour is answered 429, makes no call and touches no store. *)
Theorem login_page_loads_use_up_login_attempts s client T tr :
  windowClosed (loginHits s) client T = true ->
  withinHour T tr ->
  (servedLoginPath bcrypt_compare client s tr <= 5)%nat
  /\ forall e r,
       (5 <= servedLoginPath bcrypt_compare client s tr)%nat ->
       ip r = client ->
       underLogin (target r) = true ->
       T <= now e < T + 60 * 60 * 1000 ->
       resp (handle' (after' s tr) e r) = rateLimited
       /\ log (handle' (after' s tr) e r) = []
       /\ sameStores (after' s tr) (next (handle' (after' s tr) e r)).
Proof.
  intros Hclosed Hin.
  assert (Hfull : forall tr0, withinHour T tr0 ->
            (5 <= servedLoginPath bcrypt_compare client s tr0)%nat ->
            countedInHour (loginHits (after' s tr0)) client T 5).
  { intros tr0 Hin0 Hle.
    apply (counted_mono _ _ _
             (0 + servedLoginPath bcrypt_compare client s tr0)); [|lia].
    apply hour_after; [exact Hin0|]. right. auto. }
  split.
  - induction tr as [|[e r] tr IH] using rev_ind; [simpl; lia|].
    apply Forall_app in Hin as [Hin Hlast].
    apply Forall_cons in Hlast as [Hnow _]. simpl in Hnow.
    specialize (IH Hin). rewrite servedLoginPath_snoc.
    destruct (String.eqb_spec (ip r) client) as [Hip|]; [|simpl; lia].
    destruct (underLogin (target r)) eqn:Hunder; [|simpl; lia].
    destruct (Nat.eq_dec (servedLoginPath bcrypt_compare client s tr) 5%nat)
      as [Hfive|]; [|destruct (_ && _); lia].
    assert (Hc : countedInHour (loginHits (after' s tr)) client T 5)
      by (apply Hfull; [exact Hin|lia]).
    pose proof (hour_full _ client T e r Hc Hip Hunder Hnow) as Hadm.
    destruct (served (handle' (after' s tr) e r)) eqn:Hs; [|simpl; lia].
    apply served_admitted in Hs. congruence.
  - intros e r Hle Hip Hunder Hnow. apply turned_away.
    apply (hour_full _ client T); auto.
Qed.

End ApplicationMore.

(** ** The start of the server *)

Section StartupFacts.

Import Startup.

Lemma truthy_iff o :
  Js.truthy o = true <-> exists x, o = Some x /\ x <> EmptyString.
Proof.
  destruct o as [[|c x]|]; simpl; split; try discriminate.
  - intros (x & H & Hne). injection H as <-. congruence.
  - intros _. eexists. split; [reflexivity|discriminate].
  - intros _. reflexivity.
  - intros (x & H & _). discriminate.
Qed.

Lemma falsy_iff o :
  Js.truthy o = false <-> o = None \/ o = Some EmptyString.
Proof.
  destruct o as [[|c x]|]; simpl; split; auto; try discriminate.
  intros [H|H]; discriminate.
Qed.

Lemma validate_cases penv :
  validate penv =
    if Js.truthy (penv !! "SESSION_SECRET")
    then if Js.truthy (penv !! "ADMIN_PASSWORD") then None
         else Some "ADMIN_PASSWORD"
    else Some "SESSION_SECRET".
Proof.
  unfold validate, requiredEnvVars, unset. simpl.
  destruct (Js.truthy (penv !! "SESSION_SECRET")),
           (Js.truthy (penv !! "ADMIN_PASSWORD")); reflexivity.
Qed.

(** X16. The server refuses to start exactly when [SESSION_SECRET] or
    [ADMIN_PASSWORD] is missing from the environment or set to the empty
    string; it reports the first of the two that is missing, so
    [ADMIN_PASSWORD] is reported only when [SESSION_SECRET] is set. *)
Theorem startup_requires_both_secrets penv :
  (validate penv = None <->
   exists secret password,
     penv !! "SESSION_SECRET" = Some secret /\ secret <> EmptyString
     /\ penv !! "ADMIN_PASSWORD" = Some password /\ password <> EmptyString)
  /\ (validate penv = Some "SESSION_SECRET" <->
      penv !! "SESSION_SECRET" = None
      \/ penv !! "SESSION_SECRET" = Some EmptyString)
  /\ (forall v, validate penv = Some v ->
        v = "SESSION_SECRET" \/ v = "ADMIN_PASSWORD").
Proof.
  rewrite validate_cases, <- falsy_iff.
  split; [|split].
  - split.
    + destruct (Js.truthy (penv !! "SESSION_SECRET")) eqn:Hs; [|discriminate].
      destruct (Js.truthy (penv !! "ADMIN_PASSWORD")) eqn:Ha; [|discriminate].
      intros _. apply truthy_iff in Hs as (x & Hx & Hxne).
      apply truthy_iff in Ha as (y & Hy & Hyne). exists x, y. auto.
    + intros (x & y & Hx & Hxne & Hy & Hyne).
      rewrite (proj2 (truthy_iff _)), (proj2 (truthy_iff _)); eauto.
  - destruct (Js.truthy (penv !! "SESSION_SECRET"));
      [destruct (Js.truthy (penv !! "ADMIN_PASSWORD"))|];
      split; auto; discriminate.
  - intros v.
    destruct (Js.truthy (penv !! "SESSION_SECRET"));
      [destruct (Js.truthy (penv !! "ADMIN_PASSWORD"))|];
      intros H; try discriminate; injection H as <-; auto.
Qed.

End StartupFacts.

Section BootstrapFacts.

Import Startup.

Lemma getUser_not_taken name us :
  nameTaken name us = false -> Db.getUser (Some name) us = None.
Proof.
  unfold nameTaken. simpl. induction us as [|u us IH]; simpl; [reflexivity|].
  destruct (String.eqb (u_username u) name); [discriminate|exact IH].
Qed.

Lemma getUser_taken name us :
  nameTaken name us = true ->
  exists u, Db.getUser (Some name) us = Some u /\ u_username u = name.
Proof.
  unfold nameTaken. simpl. induction us as [|u us IH]; simpl; [discriminate|].
  destruct (String.eqb_spec (u_username u) name) as [Heq|]; [eauto|exact IH].
Qed.

Lemma getUser_snoc name us u :
  nameTaken name us = false -> u_username u = name ->
  Db.getUser (Some name) (us ++ [u]) = Some u.
Proof.
  unfold nameTaken. simpl. intros Hfree Hname.
  induction us as [|v us IH]; simpl in *.
  - rewrite Hname, String.eqb_refl. reflexivity.
  - destruct (String.eqb (u_username v) name); [discriminate|apply IH, Hfree].
Qed.

Lemma nameTaken_bootstrap h us : nameTaken "admin" (bootstrapAdmin (Some h) us) = true.
Proof.
  unfold bootstrapAdmin. destruct (nameTaken "admin" us) eqn:Ht; [exact Ht|].
  unfold nameTaken. rewrite existsb_app. simpl. apply orb_true_r.
Qed.

(** X17. The administrator is created once. The start of the server adds
    the user [admin] with the hash of the configured password when the
    table has no user of that name, as a new row after the others; when
    there is one, it is left as it is. After a start there is a user
    [admin], and a later start with another [ADMIN_PASSWORD] changes
    nothing: the password stored first stays. *)
Theorem admin_is_created_once h h2 us :
  bootstrapAdmin (Some h2) (bootstrapAdmin (Some h) us)
    = bootstrapAdmin (Some h) us
  /\ (exists u, Db.getUser (Some "admin") (bootstrapAdmin (Some h) us) = Some u
                /\ u_username u = "admin")
  /\ (nameTaken "admin" us = false ->
      Db.getUser (Some "admin") (bootstrapAdmin (Some h) us)
      = Some {| u_id := nextUserId us; u_username := "admin";
                u_password := h |})
  /\ (nameTaken "admin" us = true -> bootstrapAdmin (Some h) us = us)
  /\ exists added, bootstrapAdmin (Some h) us = us ++ added.
Proof.
  pose proof (nameTaken_bootstrap h us) as Htaken.
  split; [|split; [|split; [|split]]].
  - unfold bootstrapAdmin at 1. rewrite Htaken. reflexivity.
  - apply getUser_taken, Htaken.
  - intros Hfree. unfold bootstrapAdmin. rewrite Hfree.
    apply getUser_snoc; [exact Hfree|reflexivity].
  - intros Ht. unfold bootstrapAdmin. rewrite Ht. reflexivity.
  - unfold bootstrapAdmin. destruct (nameTaken "admin" us).
    + exists []. rewrite app_nil_r. reflexivity.
    + eexists. reflexivity.
Qed.

End BootstrapFacts.

(** ** The further properties at work *)

Lemma files_are_written_inside_content_posts_witness :
  exists t c,
    Sample.hello = PostPosts (Some t) (Some c)
    /\ "content/posts/hello-world-.md" = "content/posts/" +:+ slug t +:+ ".md"
    /\ allChars isSlugChar (slug t) = true
    /\ slug t <> EmptyString
    /\ Hugo.hugoContent "Hello, World!" Sample.t1 "body"
       = Hugo.hugoContent t Sample.t1 c.
Proof.
  apply (files_are_written_inside_content_posts Sample.compare Sample.server
           (Sample.at_ 1000 Sample.t1) (Sample.operator Sample.hello)
           "content/posts/hello-world-.md"
           (Hugo.hugoContent "Hello, World!" Sample.t1 "body")).
  right. right. left. reflexivity.
Defined.

Lemma slugs_and_ids_stay_unique_witness :
  uniqueKeys (posts (after Sample.compare Sample.server Sample.twoPosts)).
Proof.
  apply (slugs_and_ids_stay_unique Sample.compare Sample.twoPosts Sample.server).
  split; constructor.
Defined.

Lemma rows_stay_well_formed_witness :
  Forall (fun p => rowOk p /\ p_slug p <> EmptyString)
         (posts (after Sample.compare Sample.server Sample.twoPosts)).
Proof.
  apply (rows_stay_well_formed Sample.compare Sample.twoPosts Sample.server).
  constructor.
Defined.

Lemma content_file_is_written_at_creation_or_never_witness :
  files (after Sample.compare Sample.afterFailedWrite
           [(Sample.at_ 2000 Sample.t2, Sample.operator Sample.hello)])
    !! Hugo.filePath "hello-world-" = None
  /\ body (resp (handle Sample.compare
                   (after Sample.compare Sample.afterFailedWrite
                      [(Sample.at_ 2000 Sample.t2,
                        Sample.operator Sample.hello)])
                   (Sample.at_ 3000 Sample.t3) (Sample.operator Sample.hello)))
     <> JsonCreated 2 "hello-world-".
Proof.
  destruct (content_file_is_written_at_creation_or_never Sample.compare
              Sample.server (Sample.failingWrite 1000 Sample.t1)
              (Sample.operator Sample.hello)
              "Hello, World!" "body" Sample.t1 "hello-world-" 1
              [(Sample.at_ 2000 Sample.t2, Sample.operator Sample.hello)]
              (Sample.at_ 3000 Sample.t3) (Sample.operator Sample.hello)
              (Some "body") 2 "hello-world-")
    as [Hfile Hnot].
  - left. reflexivity.
  - reflexivity.
  - split; [|exact Hnot].
    change (files (next (handle Sample.compare Sample.server
                           (Sample.failingWrite 1000 Sample.t1)
                           (Sample.operator Sample.hello)))
              !! Hugo.filePath "hello-world-")
      with (@None string) in Hfile.
    exact Hfile.
Defined.


Lemma logout_ends_the_session_of_its_cookie_witness :
  resp (handle Sample.compare Sample.server (Sample.at_ 1000 Sample.t1)
          (Sample.operator GetLogout)) = toLogin
  /\ resp (handle Sample.compare
             (after Sample.compare
                (next (handle Sample.compare Sample.server
                         (Sample.at_ 1000 Sample.t1)
                         (Sample.operator GetLogout)))
                [(Sample.at_ 2000 Sample.t2, Scenario.login)])
             (Sample.at_ 3000 Sample.t3) (Sample.operator GetDashboard))
     = toLogin.
Proof.
  destruct (logout_ends_the_session_of_its_cookie Sample.compare Sample.server
              (Sample.at_ 1000 Sample.t1) (Sample.operator GetLogout) "sid-1"
              [(Sample.at_ 2000 Sample.t2, Scenario.login)]
              (Sample.at_ 3000 Sample.t3) (Sample.operator GetDashboard))
    as (Hout & _ & _ & Hnext); try reflexivity.
  - repeat constructor; simpl; [lia|discriminate].
  - simpl. lia.
  - split; assumption.
Defined.

Lemma bootstrap_admin_can_log_in_witness :
  resp (handle Sample.compare
          (Startup.start Scenario.development (Some "bcrypt:s3cret") [] [] ∅)
          (Sample.at_ 1000 Sample.t1) Scenario.login)
  = {| status := 302; body := Redirect "/cms/dashboard";
       setCookie := Some "sid-2" |}
  /\ sessions (next (handle Sample.compare
                       (Startup.start Scenario.development
                          (Some "bcrypt:s3cret") [] [] ∅)
                       (Sample.at_ 1000 Sample.t1) Scenario.login))
       !! "sid-2"
     = Some {| userId := 1; expires := 1000 + Session.maxAge |}.
Proof.
  apply (bootstrap_admin_can_log_in Sample.compare Scenario.development
           "s3cret" "bcrypt:s3cret" [] ∅ (Sample.at_ 1000 Sample.t1)
           Scenario.login);
    reflexivity.
Defined.

Lemma login_page_loads_use_up_login_attempts_witness :
  map (fun o => status (resp o))
      (run Sample.compare Sample.server Scenario.fivePageLoads)
    = [200; 200; 200; 200; 200]
  /\ resp (handle Sample.compare
             (after Sample.compare Sample.server Scenario.fivePageLoads)
             (Sample.at_ 360000 Sample.t3) Scenario.login)
     = rateLimited.
Proof.
  destruct (login_page_loads_use_up_login_attempts Sample.compare
              Sample.server "10.0.0.2" 60000 Scenario.fivePageLoads)
    as (_ & Hnext).
  - reflexivity.
  - repeat constructor; simpl; lia.
  - destruct (Hnext (Sample.at_ 360000 Sample.t3) Scenario.login)
      as (Hresp & _).
    + vm_compute. lia.
    + reflexivity.
    + reflexivity.
    + simpl. lia.
    + split; [reflexivity|exact Hresp].
Defined.

Lemma hundred_requests_per_quarter_hour_witness :
  (servedRequests Sample.compare "10.0.0.2" Sample.server
     Scenario.hundredRequests <= 100)%nat
  /\ resp (handle Sample.compare
             (after Sample.compare Sample.server Scenario.hundredRequests)
             (Sample.at_ 2000 Sample.t2) (Sample.stranger GetDashboard))
     = rateLimited.
Proof.
  destruct (hundred_requests_per_quarter_hour Sample.compare
              Sample.server "10.0.0.2" 1000 Scenario.hundredRequests)
    as (Hbound & Hnext).
  - reflexivity.
  - unfold withinQuarter, Scenario.hundredRequests.
    apply Forall_forall. intros x Hx.
    apply list_elem_of_In, repeat_spec in Hx. subst x. simpl. lia.
  - destruct (Hnext (Sample.at_ 2000 Sample.t2) (Sample.stranger GetDashboard))
      as (Hresp & _).
    + vm_compute. lia.
    + reflexivity.
    + simpl. lia.
    + split; [exact Hbound|exact Hresp].
Defined.

Lemma newest_post_heads_the_listing_witness :
  exists rest,
    [ {| s_id := 2; s_title := "Second post"; s_date := Sample.t2;
         s_slug := "second-post" |};
      {| s_id := 1; s_title := "Hello, World!"; s_date := Sample.t1;
         s_slug := "hello-world-" |} ]
    = {| s_id := 2; s_title := "Second post"; s_date := Sample.t2;
         s_slug := "second-post" |} :: rest.
Proof.
  apply (newest_post_heads_the_listing Sample.compare Sample.afterHello
           (Sample.at_ 2000 Sample.t2) (Sample.operator Sample.second)
           "Second post" "more" Sample.t2 "second-post" 2
           (Sample.at_ 3000 Sample.t3) (Sample.operator GetPosts)).
  - left. reflexivity.
  - constructor; [|constructor]. split; [reflexivity|discriminate].
  - vm_compute. reflexivity.
Defined.
